(** * gluegun: command resolution and dispatch (packages/gluegun/src/domain/runtime.js)

    A shallow embedding of [run] and [Runtime.findCommand], and the
    properties of the resolution walk, the configuration layering, the
    parameter merge and the extension pipeline. *)

From Stdlib Require Import ZArith Lia.
From stdpp Require Import base option list strings gmap.

Local Open Scope string_scope.
Local Open Scope list_scope.
Local Open Scope Z_scope.

(** ** Values *)

(** JavaScript values as far as configuration objects need them. An object
    used as a map is a [gmap] from property names to values. *)
#[local] Unset Elimination Schemes.
Inductive Value : Type :=
| VUndefined
| VNull
| VBool (b : bool)
| VNum (n : Z)
| VStr (s : string)
| VObj (o : gmap string Value).
#[local] Set Elimination Schemes.

Abbreviation Obj := (gmap string Value).

(** ramda [merge(a, b)]: a fresh object with the own properties of [a]
    overwritten by those of [b]. *)
Definition merge (a b : Obj) : Obj := b ∪ a.

(** ramda [clone]: a deep copy; values here have no identity. *)
Definition clone (o : Obj) : Obj := o.

(** ** Exceptions and results *)

Inductive Exn : Type :=
| TypeError (msg : string)
| ReferenceError (msg : string)
| Thrown (v : Value).

Inductive Completion (A : Type) : Type :=
| Return (a : A)
| Throw (e : Exn).
Arguments Return {A} a.
Arguments Throw {A} e.

(** ** Data model *)

(** A function value stored in a record is kept as a handle; the runtime
    environment says what calling it does. *)
Definition Handle := nat.

Record Command : Type := mkCommand {
  name : string;
  commandPath : list string;
  alias : list string;
  run_of : option Handle       (* the [run] property, when there is one *)
}.

Record Plugin : Type := mkPlugin {
  plugin_name : string;
  commands : list Command;
  plugin_defaults : Obj
}.

Record Extension : Type := mkExtension {
  ext_name : string;
  setup : Handle
}.

(** ** ramda and Array helpers *)

(** [Array.prototype.slice(0, -1)]: everything but the last element. *)
Definition slice_init (l : list string) : list string := removelast l.

(** ramda [equals] on arrays of strings. *)
Definition equals (a b : list string) : bool := bool_decide (a = b).

(** [Array.prototype.includes] on an array of strings. *)
Definition includes (l : list string) (s : string) : bool := bool_decide (s ∈ l).

(** ramda [sort(cmp, list)]: a sorted copy. [Array.prototype.sort] is stable
    (ECMAScript 2019): elements that compare equal keep their order. *)
Section Sort.
Context {A : Type} (cmp : A → A → Z).

Fixpoint sort_insert (x : A) (l : list A) : list A :=
  match l with
  | [] => [x]
  | y :: l' => if cmp x y <=? 0 then x :: y :: l' else y :: sort_insert x l'
  end.

Fixpoint sort (l : list A) : list A :=
  match l with
  | [] => []
  | x :: l' => sort_insert x (sort l')
  end.
End Sort.

(** The comparator of [findCommand]:
    [(a, b) => a.commandPath.length - b.commandPath.length]. *)
Definition by_path_length (a b : Command) : Z :=
  Z.of_nat (length (commandPath a)) - Z.of_nat (length (commandPath b)).

(** ** Runtime.findCommand *)

(** The predicate handed to [find] in the walk:
    [equals(command.commandPath.slice(0, -1), prevPath)
       && (command.name === currName || command.alias.includes(currName))]. *)
Definition fits (prevPath : list string) (currName : string) (command : Command) : bool :=
  equals (slice_init (commandPath command)) prevPath
  && (bool_decide (name command = currName) || includes (alias command) currName).

(** The reducer of the walk, for the commands it searches. *)
Definition walk_find (cmds : list Command) (prevPath : list string) (currName : string)
  : option Command :=
  find (fits prevPath currName) (sort by_path_length cmds).

Definition walk_step (cmds : list Command) (prevPath : list string) (currName : string)
  : list string :=
  match walk_find cmds prevPath currName with
  | Some cmd => commandPath cmd
  | None => prevPath
  end.

(** [reduce(step, [])(commandPath)]. *)
Definition walk (cmds : list Command) (commandPath : list string) : list string :=
  fold_left (walk_step cmds) commandPath [].

(** [findCommand (context, commandPath)].

    The body reads [plugin.commands] and [plugin.name], while the parameter
    is called [context]: [plugin] is a free identifier of the function, bound
    by whatever scope encloses it. [plugin] below is that binding, [None]
    when the identifier is not declared (reading it then raises a
    ReferenceError). [context] is [None] for [null]/[undefined]. A missing
    [commandPath] is [None]. The result [None] stands for [null] and for the
    [undefined] of an unsuccessful [find]. *)
Definition findCommand (plugin : option Plugin) (context : option Plugin)
    (commandPath_arg : option (list string)) : Completion (option Command) :=
  match context with
  | None => Throw (TypeError "Cannot read property 'commands' of undefined")
  | Some context =>
    (* if (isNilOrEmpty(context.commands)) return null *)
    if bool_decide (commands context = []) then Return None
    else
      (* if (!commandPath) { commandPath = [] } *)
      let commandPath_arg := default [] commandPath_arg in
      match plugin with
      | None =>
        (* the first use of [plugin] is in the reducer when there is a token,
           else in the predicate of the default lookup, which runs at least
           once since context.commands is not empty *)
        Throw (ReferenceError "plugin is not defined")
      | Some plugin =>
        let finalCommandPath := walk (commands plugin) commandPath_arg in
        if bool_decide (length finalCommandPath = 0%nat) then
          Return (find (λ command, equals (commandPath command) [plugin_name plugin])
                       (commands context))
        else
          Return (find (λ command, equals (commandPath command) finalCommandPath)
                       (commands context))
      end
  end.

(** ** Runtime, RunContext and the collaborators of [run] *)

(** The fields the constructor sets and [run] reads, and [defaultPlugin],
    which [run] reads and something else has to set: it is [None] on a
    Runtime fresh from the constructor. *)
Record Runtime : Type := mkRuntime {
  brand : string;
  plugins : list Plugin;
  extensions : list Extension;
  defaults : option (gmap string Obj);   (* per-plugin defaults; may be nil *)
  config : Obj;
  defaultPlugin : option Plugin
}.

(** Modelled from the spec: the members [pluginNames] and [findPlugin] that
    [run] reads on the Runtime are not defined in runtime.js. The plugin
    registry is "an ordered collection of loaded Plugin records, queried by
    name", and resolving by name "fails softly: unknown name yields a missing
    plugin". *)
Definition pluginNames (this : Runtime) : list string :=
  map plugin_name (plugins this).

(** Modelled from the spec: [findPlugin], the lookup of a plugin by name in
    the registry; [None] is the missing plugin. *)
Definition findPlugin (this : Runtime) (pluginName : string) : option Plugin :=
  find (λ p, bool_decide (plugin_name p = pluginName)) (plugins this).

(** Modelled from the spec: what the Parameter Normalizer
    (../cli/normalize-params) returns,
    "{ options: map, ...other structured fields }". *)
Record Parameters : Type := mkParameters {
  options : Obj;
  fields : Obj
}.

Definition set_options (p : Parameters) (o : Obj) : Parameters :=
  {| options := o; fields := fields p |}.

(** Modelled from the spec: the RunContext class (./run-context), "a
    per-invocation record holding: back-reference to the Runtime, resolved
    pluginName/commandName/plugin/command, merged config, normalized
    parameters, and eventually result". [attached] holds what the extensions
    hang on the context. *)
Record RunContext : Type := mkRunContext {
  runtime : option Runtime;
  pluginName : option string;
  commandName : option string;
  ctx_plugin : option Plugin;
  ctx_command : option Command;
  ctx_config : option Obj;
  parameters : option Parameters;
  result : option Value;
  attached : Obj
}.

Definition new_RunContext : RunContext :=
  {| runtime := None; pluginName := None; commandName := None;
     ctx_plugin := None; ctx_command := None; ctx_config := None;
     parameters := None; result := None; attached := ∅ |}.

Definition set_runtime (c : RunContext) (x : Runtime) : RunContext :=
  {| runtime := Some x; pluginName := pluginName c; commandName := commandName c;
     ctx_plugin := ctx_plugin c; ctx_command := ctx_command c; ctx_config := ctx_config c;
     parameters := parameters c; result := result c; attached := attached c |}.

Definition set_pluginName (c : RunContext) (x : string) : RunContext :=
  {| runtime := runtime c; pluginName := Some x; commandName := commandName c;
     ctx_plugin := ctx_plugin c; ctx_command := ctx_command c; ctx_config := ctx_config c;
     parameters := parameters c; result := result c; attached := attached c |}.

Definition set_commandName (c : RunContext) (x : string) : RunContext :=
  {| runtime := runtime c; pluginName := pluginName c; commandName := Some x;
     ctx_plugin := ctx_plugin c; ctx_command := ctx_command c; ctx_config := ctx_config c;
     parameters := parameters c; result := result c; attached := attached c |}.

Definition set_plugin (c : RunContext) (x : option Plugin) : RunContext :=
  {| runtime := runtime c; pluginName := pluginName c; commandName := commandName c;
     ctx_plugin := x; ctx_command := ctx_command c; ctx_config := ctx_config c;
     parameters := parameters c; result := result c; attached := attached c |}.

Definition set_command (c : RunContext) (x : option Command) : RunContext :=
  {| runtime := runtime c; pluginName := pluginName c; commandName := commandName c;
     ctx_plugin := ctx_plugin c; ctx_command := x; ctx_config := ctx_config c;
     parameters := parameters c; result := result c; attached := attached c |}.

Definition set_config (c : RunContext) (x : Obj) : RunContext :=
  {| runtime := runtime c; pluginName := pluginName c; commandName := commandName c;
     ctx_plugin := ctx_plugin c; ctx_command := ctx_command c; ctx_config := Some x;
     parameters := parameters c; result := result c; attached := attached c |}.

Definition set_parameters (c : RunContext) (x : Parameters) : RunContext :=
  {| runtime := runtime c; pluginName := pluginName c; commandName := commandName c;
     ctx_plugin := ctx_plugin c; ctx_command := ctx_command c; ctx_config := ctx_config c;
     parameters := Some x; result := result c; attached := attached c |}.

Definition set_result (c : RunContext) (x : Value) : RunContext :=
  {| runtime := runtime c; pluginName := pluginName c; commandName := commandName c;
     ctx_plugin := ctx_plugin c; ctx_command := ctx_command c; ctx_config := ctx_config c;
     parameters := parameters c; result := Some x; attached := attached c |}.

(** The first argument of [run]: omitted, a string, or an array of tokens. *)
Inductive RawCommand : Type :=
| RawAbsent
| RawString (s : string)
| RawArray (l : list string).

(** [String.prototype.split] with a one-character separator. *)
Fixpoint split (d : Ascii.ascii) (s : string) : list string :=
  match s with
  | EmptyString => [EmptyString]
  | String c s' =>
    if Ascii.eqb c d then EmptyString :: split d s'
    else match split d s' with
         | [] => [String c EmptyString]
         | w :: ws => String c w :: ws
         end
  end.

Definition COMMAND_DELIMITER : Ascii.ascii := Ascii.Space.

(** ** Calls into foreign code: a log of what was called, and exceptions *)

Inductive Event : Type :=
| EvSetup (e : Extension) (context : RunContext)   (* extension.setup(context) *)
| EvRun (c : Command) (context : RunContext).      (* context.command.run(context) *)

Definition Eff (A : Type) : Type := list Event → Completion A * list Event.

Definition ret {A} (a : A) : Eff A := λ log, (Return a, log).
Definition throw {A} (e : Exn) : Eff A := λ log, (Throw e, log).
Definition emit (ev : Event) : Eff unit := λ log, (Return tt, log ++ [ev]).
Definition lift {A} (c : Completion A) : Eff A := λ log, (c, log).
Definition bind {A B} (m : Eff A) (k : A → Eff B) : Eff B :=
  λ log, match m log with
         | (Return a, log') => k a log'
         | (Throw e, log') => (Throw e, log')
         end.

Notation "'let*' x ':=' m 'in' k" := (bind m (λ x, k))
  (at level 10, x name, m at level 100, k at level 200).
Notation "'do*' m 'in' k" := (bind m (λ _, k))
  (at level 10, m at level 100, k at level 200).

(** ** run *)

Section Run.
(** What [run] takes from its surroundings: the live argument vector
    [process.argv], the Parameter Normalizer, and the meaning of calling an
    extension's [setup] and a command's [run]. A setup works on the context
    it is given and leaves it changed; a command's behaviour may change the
    context too and returns a value. Either may throw. *)
Variable argv : list string.
Variable normalizeParams : string → string → list string → Parameters.
Variable call_setup : Handle → RunContext → Completion RunContext.
Variable call_run : Handle → RunContext → Completion (RunContext * Value).

(** Lines 59-64: the token array [run] works on. *)
Definition commandArray_of (rawCommand : RawCommand) : list string :=
  (* let commandArray = rawCommand || process.argv
     if (is(String, commandArray)) commandArray = commandArray.split(' ') *)
  let commandArray :=
    match rawCommand with
    | RawAbsent => argv
    | RawString s => if bool_decide (s = "") then argv else split COMMAND_DELIMITER s
    | RawArray l => l
    end in
  (* if (equals(commandArray, process.argv)) commandArray = commandArray.slice(2) *)
  if equals commandArray argv then drop 2 commandArray else commandArray.

(** A string is truthy when it is not empty. *)
Definition truthy (s : string) : bool := negb (bool_decide (s = "")).

(** Lines 53-57 and 66-86: the fresh context with the runtime attached, then
    plugin name, command name, plugin and remaining tokens. *)
Definition select (this : Runtime) (commandArray : list string)
  : RunContext * list string :=
  let context := set_runtime new_RunContext this in
  (* if no first arg, we want to go for the default, which is named the
     same as the plugin *)
  let go_for_default :=
    (set_plugin (set_commandName (set_pluginName context (brand this)) (brand this))
                (defaultPlugin this),
     commandArray) in
  let '(context, commandArray) :=
    match head commandArray with
    | None => go_for_default
    | Some commandName =>
      if negb (truthy commandName) then go_for_default
      else if includes (pluginNames this) commandName then
        (* this is the name of a plugin: try with the second argument, or
           back to the plugin name; remove the plugin name from the array *)
        (set_commandName (set_pluginName context commandName)
           (match commandArray !! 1%nat with
            | Some second => if truthy second then second else commandName
            | None => commandName
            end),
         drop 1 commandArray)
      else
        (* one of the default commands *)
        (set_commandName (set_pluginName context (brand this)) commandName,
         commandArray)
    end in
  (* context.plugin = context.plugin || this.findPlugin(context.pluginName) *)
  (set_plugin context
     (match ctx_plugin context with
      | Some plugin => Some plugin
      | None => findPlugin this (default "" (pluginName context))
      end),
   commandArray).

(** Lines 93-97: the configuration put on the context. *)
Definition effectiveConfig (this : Runtime) (plugin : Plugin) : Obj :=
  <[ plugin_name plugin :=
       VObj (merge (plugin_defaults plugin)
                   (* (this.defaults && this.defaults[name]) || {} *)
                   (default ∅ (defaults this ≫= (λ d, d !! plugin_name plugin)))) ]>
    (clone (config this)).

(** Lines 100-105: the parameters put on the context. *)
Definition mergedParameters (plugin : Plugin) (command : Command)
    (commandArray : list string) (options_arg : option Obj) : Parameters :=
  let parameters := normalizeParams (plugin_name plugin) (name command) commandArray in
  set_options parameters (merge (options parameters) (default ∅ options_arg)).

(** [forEach(extension => extension.setup(context), this.extensions)]. *)
Fixpoint forEach_setup (exts : list Extension) (context : RunContext) : Eff RunContext :=
  match exts with
  | [] => ret context
  | extension :: rest =>
    do* emit (EvSetup extension context) in
    let* context := lift (call_setup (setup extension) context) in
    forEach_setup rest context
  end.

(** Lines 107-116: kick it off. *)
Definition kickOff (this : Runtime) (context : RunContext) : Eff RunContext :=
  match ctx_command context with
  | None => throw (TypeError "Cannot read property 'run' of undefined")
  | Some command =>
    (* if (context.command.run) *)
    match run_of command with
    | Some _ =>
      let* context := forEach_setup (extensions this) context in
      (* context.result = await context.command.run(context) *)
      match ctx_command context with
      | None => throw (TypeError "Cannot read property 'run' of undefined")
      | Some command =>
        match run_of command with
        | None => throw (TypeError "context.command.run is not a function")
        | Some behaviour =>
          do* emit (EvRun command context) in
          let* r := lift (call_run behaviour context) in
          ret (set_result (fst r) (snd r))
        end
      end
    | None => ret context
    end
  end.

(** Lines 53-87: the context once plugin and command have been looked up,
    and the tokens that remain. [plugin_binding] is what the identifier
    [plugin] stands for inside [findCommand]. *)
Definition resolve (plugin_binding : option Plugin) (this : Runtime)
    (rawCommand : RawCommand) : Completion (RunContext * list string) :=
  let '(context, commandArray) := select this (commandArray_of rawCommand) in
  (* context.command = this.findCommand(context.plugin, commandArray) *)
  match findCommand plugin_binding (ctx_plugin context) (Some commandArray) with
  | Return command => Return (set_command context command, commandArray)
  | Throw e => Throw e
  end.

(** Lines 92-105: config and parameters. *)
Definition prepare (this : Runtime) (options_arg : option Obj) (context : RunContext)
    (commandArray : list string) (plugin : Plugin) (command : Command) : RunContext :=
  let context := set_config context (effectiveConfig this plugin) in
  set_parameters context (mergedParameters plugin command commandArray options_arg).

(** [run (rawCommand, options)], with [this] the Runtime it is called on. *)
Definition run (plugin_binding : option Plugin) (this : Runtime)
    (rawCommand : RawCommand) (options_arg : option Obj) : Eff RunContext :=
  let* resolved := lift (resolve plugin_binding this rawCommand) in
  let context := fst resolved in
  let commandArray := snd resolved in
  (* if (isNil(context.plugin) || isNil(context.command)) return context *)
  match ctx_plugin context, ctx_command context with
  | Some plugin, Some command =>
    kickOff this (prepare this options_arg context commandArray plugin command)
  | _, _ => ret context
  end.

End Run.

(** ** Fixtures *)

Module Fixture.
(** A plugin in the shape of the [args] fixture of the tests: a default
    command, [config] with aliases, and a nested command. *)
Definition args_default : Command := mkCommand "args" ["args"] [] (Some 0%nat).
Definition args_config : Command := mkCommand "config" ["config"] ["c"; "cfg"] (Some 1%nat).
Definition args_sub : Command := mkCommand "sub" ["config"; "sub"] ["s"] None.
Definition args : Plugin :=
  mkPlugin "args" [args_default; args_config; args_sub] {[ "color" := VStr "blue" ]}.

(** Two sibling commands that share the alias [x]. *)
Definition cmd_a : Command := mkCommand "a" ["a"] ["x"] None.
Definition cmd_b : Command := mkCommand "b" ["b"] ["x"; "y"] None.
Definition shared : Plugin := mkPlugin "shared" [cmd_a; cmd_b] ∅.

Definition print_ext : Extension := mkExtension "print" 0%nat.
Definition strings_ext : Extension := mkExtension "strings" 1%nat.

Definition runtime_args (overrides : option (gmap string Obj)) : Runtime :=
  mkRuntime "args" [args] [strings_ext; print_ext] overrides ∅ (Some args).

(** Two commands that answer to [a] under the empty parent path, the second
    with the shorter (empty) commandPath. *)
Definition long_a : Command := mkCommand "a" ["a"] [] None.
Definition short_a : Command := mkCommand "a" [] [] None.

(** The context after a resolution that found plugin [p] and command [c]. *)
Definition resolved (this : Runtime) (pluginName commandName : string)
    (p : Plugin) (c : option Command) : RunContext :=
  set_command
    (set_plugin
       (set_commandName (set_pluginName (set_runtime new_RunContext this) pluginName)
                        commandName)
       (Some p))
    c.

Definition argv : list string := ["node"; "cli.js"].

Definition normalizeParams (pluginName commandName : string) (tokens : list string)
  : Parameters :=
  mkParameters {[ "verbose" := VBool false; "plugin" := VStr pluginName ]} ∅.

(** Each extension attaches its handle number under its own key. *)
Definition call_setup (h : Handle) (context : RunContext) : Completion RunContext :=
  Return {| runtime := runtime context; pluginName := pluginName context;
            commandName := commandName context; ctx_plugin := ctx_plugin context;
            ctx_command := ctx_command context; ctx_config := ctx_config context;
            parameters := parameters context; result := result context;
            attached := <[ (if Nat.eqb h 0 then "print" else "strings") := VNum (Z.of_nat h) ]>
                          (attached context) |}.

(** The [config] command of the tests returns the colour its plugin is
    configured with. *)
Definition call_run (h : Handle) (context : RunContext) : Completion (RunContext * Value) :=
  Return (context,
          match ctx_config context with
          | Some cfg =>
            match (cfg : Obj) !! "args" with
            | Some (VObj o) => default VUndefined (o !! "color")
            | _ => VUndefined
            end
          | None => VUndefined
          end).
End Fixture.

(** ** The Runtime class: constructor and mutators *)

(** What a plugin loaded from a directory carries besides the plugin record:
    the extensions it brings. *)
Record LoadedPlugin : Type := mkLoadedPlugin {
  loaded_plugin : Plugin;
  loaded_extensions : list Extension
}.

(** The options object [load] builds for the loader. *)
Record LoaderOptions : Type := mkLoaderOptions {
  commandFilePattern : option Value;
  extensionFilePattern : option Value
}.

(** The setup functions of the core extensions, as handles. *)
Record CoreExtensions : Type := mkCoreExtensions {
  addTemplateExtension : Handle;
  addPrintExtension : Handle;
  addFilesystemExtension : Handle;
  addSemverExtension : Handle;
  addSystemExtension : Handle;
  addPromptExtension : Handle;
  addHttpExtension : Handle;
  addStringsExtension : Handle;
  addPatchingExtension : Handle
}.

Section RuntimeClass.
(** The modules the class requires: the core extensions, the plugin loader
    (which may throw) and the string and filesystem utilities. *)
Variable core : CoreExtensions.
Variable loadPluginFromDirectory : string → LoaderOptions → Completion LoadedPlugin.
Variable isBlank : string → bool.
Variable isDirectory : string → bool.
Variable subdirectories : string → bool → option Value → bool → list string.

(** [addExtension (name, setup)]: [this.extensions.push({ name, setup })];
    the result is [this] after the push. *)
Definition addExtension (this : Runtime) (name : string) (setup : Handle) : Runtime :=
  {| brand := brand this; plugins := plugins this;
     extensions := extensions this ++ [{| ext_name := name; setup := setup |}];
     defaults := defaults this; config := config this;
     defaultPlugin := defaultPlugin this |}.

Definition addCoreExtensions (this : Runtime) : Runtime :=
  let this := addExtension this "strings" (addStringsExtension core) in
  let this := addExtension this "print" (addPrintExtension core) in
  let this := addExtension this "template" (addTemplateExtension core) in
  let this := addExtension this "filesystem" (addFilesystemExtension core) in
  let this := addExtension this "semver" (addSemverExtension core) in
  let this := addExtension this "system" (addSystemExtension core) in
  let this := addExtension this "http" (addHttpExtension core) in
  let this := addExtension this "prompt" (addPromptExtension core) in
  addExtension this "patching" (addPatchingExtension core).

(** [constructor (brand)]. The record keeps the members [run] reads. *)
Definition constructor (brand : string) : Runtime :=
  addCoreExtensions
    {| brand := brand; plugins := []; extensions := []; defaults := Some ∅;
       config := ∅; defaultPlugin := None |}.

(** [load (directory, options = {})]: the result of the call (it returns
    nothing) and the Runtime after it. *)
Definition load (this : Runtime) (directory : string) (options_arg : option Obj)
  : Completion unit * Runtime :=
  let options := default ∅ options_arg in
  match loadPluginFromDirectory directory
          {| commandFilePattern := options !! "commandFilePattern";
             extensionFilePattern := options !! "extensionFilePattern" |} with
  | Throw e => (Throw e, this)
  | Return plugin =>
    (Return tt,
     fold_left (λ this extension, addExtension this (ext_name extension) (setup extension))
               (loaded_extensions plugin) this)
  end.

(** [map(dir => this.load(dir, options))] over the subdirectories. *)
Fixpoint map_load (this : Runtime) (dirs : list string) (options : Obj)
  : Completion (list unit) * Runtime :=
  match dirs with
  | [] => (Return [], this)
  | dir :: rest =>
    match load this dir (Some options) with
    | (Throw e, this) => (Throw e, this)
    | (Return loaded, this) =>
      match map_load this rest options with
      | (Return others, this) => (Return (loaded :: others), this)
      | (Throw e, this) => (Throw e, this)
      end
    end
  end.

(** [loadAll (directory, options = {})]. *)
Definition loadAll (this : Runtime) (directory : string) (options_arg : option Obj)
  : Completion (list unit) * Runtime :=
  let options := default ∅ options_arg in
  if isBlank directory || negb (isDirectory directory) then (Return [], this)
  else
    map_load this (subdirectories directory false (options !! "matching") true)
             (delete "matching" options).

End RuntimeClass.

(** ** print-banner.ts *)

(** The calls [printBanner] makes on [print], with what [colors] is asked to
    colour. [BANNER[i]] beyond the end of the banner is [undefined]. *)
Inductive Coloured : Type :=
| ColourRandom (line : option string)
| ColourYellow (text : string)
| ColourWhite (text : string).

Inductive PrintCall : Type :=
| PrintNewline
| PrintFancy (what : Coloured)
| PrintDivider.

(** [printBanner ()], for the lines [BANNER] of banner.txt and the text the
    template literal makes of [pkg.version]. *)
Definition printBanner (BANNER : list string) (version : string) : list PrintCall :=
  [ PrintNewline;
    PrintFancy (ColourRandom (BANNER !! 0%nat));
    PrintFancy (ColourRandom (BANNER !! 1%nat));
    PrintFancy (ColourRandom (BANNER !! 2%nat));
    PrintFancy (ColourRandom (BANNER !! 3%nat));
    PrintFancy (ColourRandom (BANNER !! 4%nat));
    PrintFancy (ColourRandom (BANNER !! 5%nat));
    PrintFancy (ColourRandom (BANNER !! 6%nat));
    PrintFancy (ColourRandom (BANNER !! 7%nat));
    PrintNewline;
    PrintNewline;
    PrintFancy (ColourYellow "  https://github.com/infinitered/gluegun");
    PrintFancy (ColourWhite ("  " +:+ version));
    PrintNewline;
    PrintDivider ].

(** ** Notions the properties are stated with *)

Definition path_length (c : Command) : nat := length (commandPath c).

(** The first of the shortest elements of a list, in list order. *)
Fixpoint first_shortest (l : list Command) : option Command :=
  match l with
  | [] => None
  | x :: l' =>
    match first_shortest l' with
    | None => Some x
    | Some m => if (path_length x <=? path_length m)%nat then Some x else Some m
    end
  end.

Fixpoint sorted_by_length (l : list Command) : Prop :=
  match l with
  | [] => True
  | x :: l' => Forall (λ y, (path_length x ≤ path_length y)%nat) l' ∧ sorted_by_length l'
  end.

(** The default command: the first command of [context.commands] whose
    commandPath is the plugin's name alone. *)
Definition default_command (plugin context : Plugin) : option Command :=
  find (λ command, equals (commandPath command) [plugin_name plugin]) (commands context).

(** [run] and its resolution at the fixtures. *)
Abbreviation run_args overrides :=
  (run Fixture.argv Fixture.normalizeParams Fixture.call_setup Fixture.call_run
       (Some Fixture.args) (Fixture.runtime_args overrides)).
Abbreviation resolve_args overrides :=
  (resolve Fixture.argv (Some Fixture.args) (Fixture.runtime_args overrides)).

(** A token path along which every step has a candidate, and every
    candidate of a step is the command one level down that the token names:
    its commandPath is the accumulated path followed by the token. *)
Fixpoint unambiguous (cmds : list Command) (prevPath : list string) (path : list string)
  : Prop :=
  match path with
  | [] => True
  | tok :: rest =>
    (∃ d, d ∈ cmds ∧ fits prevPath tok d = true)
    ∧ (∀ d, d ∈ cmds → fits prevPath tok d = true → commandPath d = prevPath ++ [tok])
    ∧ unambiguous cmds (prevPath ++ [tok]) rest
  end.

(** [Array.prototype.join] with a one-character separator, and whether a
    string holds a character. *)
Fixpoint join (d : Ascii.ascii) (l : list string) : string :=
  match l with
  | [] => EmptyString
  | [w] => w
  | w :: rest => w +:+ String d (join d rest)
  end.

Fixpoint has_char (d : Ascii.ascii) (s : string) : bool :=
  match s with
  | EmptyString => false
  | String c s' => Ascii.eqb c d || has_char d s'
  end.

(** The Runtime with another base config, and the plugin with other
    defaults. *)
Definition with_config (this : Runtime) (cfg : Obj) : Runtime :=
  {| brand := brand this; plugins := plugins this; extensions := extensions this;
     defaults := defaults this; config := cfg; defaultPlugin := defaultPlugin this |}.

Definition with_defaults (plugin : Plugin) (d : Obj) : Plugin :=
  {| plugin_name := plugin_name plugin; commands := commands plugin;
     plugin_defaults := d |}.

(** [this'] is [this] with the extensions [added] registered after its own. *)
Definition extended (this this' : Runtime) (added : list Extension) : Prop :=
  brand this' = brand this ∧ plugins this' = plugins this
  ∧ defaults this' = defaults this ∧ config this' = config this
  ∧ defaultPlugin this' = defaultPlugin this
  ∧ extensions this' = extensions this ++ added.

(** More fixtures: a Runtime whose brand plugin has no default command, a
    throwing setup and a throwing command, and a loader. *)
Module Fixture2.
Definition runtime_shared : Runtime :=
  mkRuntime "shared" [Fixture.shared; Fixture.args] [] (Some ∅) ∅ None.

Definition boom : Exn := Thrown (VStr "boom").

(** The setup with handle 1 throws; the others leave the context alone. *)
Definition call_setup (h : Handle) (context : RunContext) : Completion RunContext :=
  if Nat.eqb h 1 then Throw boom else Return context.

(** The behaviour with handle 0 throws; the others return 42. *)
Definition call_run (h : Handle) (context : RunContext) : Completion (RunContext * Value) :=
  if Nat.eqb h 0 then Throw boom else Return (context, VNum 42).

Definition runtime_two : Runtime :=
  mkRuntime "args" [Fixture.args]
            [mkExtension "first" 0%nat; mkExtension "second" 1%nat; mkExtension "third" 2%nat]
            (Some ∅) ∅ None.

Definition core : CoreExtensions :=
  mkCoreExtensions 0%nat 1%nat 2%nat 3%nat 4%nat 5%nat 6%nat 7%nat 8%nat.

(** A loader that throws on the directory [bad] and otherwise brings one
    extension named after the directory. *)
Definition loadPluginFromDirectory (directory : string) (o : LoaderOptions)
  : Completion LoadedPlugin :=
  if bool_decide (directory = "bad") then Throw boom
  else Return (mkLoadedPlugin (mkPlugin directory [] ∅) [mkExtension directory 9%nat]).

Definition isBlank (s : string) : bool := bool_decide (s = "").
Definition isDirectory (s : string) : bool := bool_decide (s = "plugins").
Definition subdirectories (dir : string) (b1 : bool) (matching : option Value) (b2 : bool)
  : list string := ["one"; "two"].
End Fixture2.

(** The setups thread one context: the first is handed [start], each next one
    the context the one before left, and [final] is what the last leaves. *)
Fixpoint threaded (call_setup : Handle → RunContext → Completion RunContext)
    (exts : list Extension) (contexts : list RunContext) (start final : RunContext)
  : Prop :=
  match exts, contexts with
  | [], [] => final = start
  | extension :: exts, context :: contexts =>
    context = start
    ∧ ∃ next, call_setup (setup extension) context = Return next
              ∧ threaded call_setup exts contexts next final
  | _, _ => False
  end.

(** A plugin without commands, and a Runtime that has loaded it. *)
Module Fixture3.
Definition bare : Plugin := mkPlugin "bare" [] ∅.
Definition runtime_bare : Runtime := mkRuntime "cli" [bare] [] (Some ∅) ∅ None.
End Fixture3.

(** * Properties *)

(** ** The sorted copy searched by the walk *)

Lemma by_path_length_le (x y : Command) :
  (by_path_length x y <=? 0) = (path_length x <=? path_length y)%nat.
Proof.
  unfold by_path_length, path_length.
  destruct (Nat.leb_spec (length (commandPath x)) (length (commandPath y)));
    [apply Z.leb_le | apply Z.leb_gt]; lia.
Qed.

Lemma sort_insert_In (x y : Command) (l : list Command) :
  In y (sort_insert by_path_length x l) ↔ y = x ∨ In y l.
Proof.
  induction l as [|z l IH]; simpl.
  - intuition.
  - destruct (by_path_length x z <=? 0); simpl; [intuition|].
    rewrite IH. intuition.
Qed.

Lemma sort_In (y : Command) (l : list Command) :
  In y (sort by_path_length l) ↔ In y l.
Proof.
  induction l as [|x l IH]; simpl; [tauto|].
  rewrite sort_insert_In, IH. intuition.
Qed.

Lemma sort_insert_sorted (x : Command) (l : list Command) :
  sorted_by_length l → sorted_by_length (sort_insert by_path_length x l).
Proof.
  induction l as [|z l IH]; simpl.
  - auto.
  - intros [Hz Hl]. rewrite by_path_length_le.
    destruct (Nat.leb_spec (path_length x) (path_length z)) as [Hle|Hgt]; simpl.
    + repeat split; auto. constructor; [exact Hle|].
      eapply Forall_impl; [exact Hz|]. simpl. intros; lia.
    + split; [|auto]. apply Forall_forall. intros y Hy.
      apply list_elem_of_In, sort_insert_In in Hy. destruct Hy as [->|Hy]; [lia|].
      rewrite Forall_forall in Hz. apply Hz, list_elem_of_In, Hy.
Qed.

Lemma sort_sorted (l : list Command) : sorted_by_length (sort by_path_length l).
Proof.
  induction l as [|x l IH]; simpl; [exact I|]. apply sort_insert_sorted, IH.
Qed.

Lemma sort_insert_front (x : Command) (l : list Command) :
  Forall (λ y, (path_length x ≤ path_length y)%nat) l →
  sort_insert by_path_length x l = x :: l.
Proof.
  destruct l as [|z l]; simpl; [reflexivity|].
  intros H. apply Forall_cons in H as [H _].
  rewrite by_path_length_le. apply Nat.leb_le in H. rewrite H. reflexivity.
Qed.

Lemma filter_sort_insert (P : Command → bool) (x : Command) (l : list Command) :
  sorted_by_length l →
  List.filter P (sort_insert by_path_length x l)
  = if P x then sort_insert by_path_length x (List.filter P l) else List.filter P l.
Proof.
  induction l as [|z l IH]; simpl.
  - destruct (P x); reflexivity.
  - intros [Hz Hl]. rewrite by_path_length_le.
    destruct (Nat.leb_spec (path_length x) (path_length z)) as [Hle|Hgt]; simpl.
    + destruct (P x); [|reflexivity].
      symmetry. apply sort_insert_front.
      assert (Hall : Forall (λ y, (path_length x ≤ path_length y)%nat) (z :: l)).
      { constructor; [exact Hle|]. eapply Forall_impl; [exact Hz|]. simpl. intros; lia. }
      rewrite Forall_forall in Hall. apply Forall_forall. intros y Hy.
      apply Hall. apply list_elem_of_In. apply list_elem_of_In in Hy.
      change (In y (List.filter P (z :: l))) in Hy.
      apply filter_In in Hy. tauto.
    + rewrite (IH Hl). destruct (P z), (P x); simpl; try reflexivity.
      rewrite by_path_length_le.
      apply Nat.leb_gt in Hgt. rewrite Hgt. reflexivity.
Qed.

(** Sorting by length, being stable, commutes with filtering. *)
Lemma filter_sort (P : Command → bool) (l : list Command) :
  List.filter P (sort by_path_length l) = sort by_path_length (List.filter P l).
Proof.
  induction l as [|x l IH]; simpl; [reflexivity|].
  rewrite filter_sort_insert by apply sort_sorted.
  rewrite IH. destruct (P x); reflexivity.
Qed.

Lemma head_sort (l : list Command) :
  head (sort by_path_length l) = first_shortest l.
Proof.
  induction l as [|x l IH]; simpl; [reflexivity|].
  rewrite <- IH. destruct (sort by_path_length l) as [|m s]; simpl; [reflexivity|].
  rewrite by_path_length_le. destruct (path_length x <=? path_length m)%nat; reflexivity.
Qed.

Lemma find_head_filter {A} (P : A → bool) (l : list A) :
  find P l = head (List.filter P l).
Proof.
  induction l as [|x l IH]; simpl; [reflexivity|]. destruct (P x); simpl; auto.
Qed.

Lemma first_shortest_split (l : list Command) (c : Command) :
  first_shortest l = Some c →
  ∃ before after, l = before ++ c :: after
    ∧ (∀ d, d ∈ before → (path_length c < path_length d)%nat)
    ∧ (∀ d, d ∈ after → (path_length c ≤ path_length d)%nat).
Proof.
  revert c. induction l as [|x l IH]; simpl; [discriminate|].
  intros c. destruct (first_shortest l) as [m|] eqn:Hm.
  - destruct (Nat.leb_spec (path_length x) (path_length m)) as [Hle|Hgt];
      intros [= <-].
    + destruct (IH m eq_refl) as (b & a & -> & Hb & Ha).
      exists [], (b ++ m :: a). split; [reflexivity|]. split.
      * intros d Hd. inversion Hd.
      * intros d Hd. apply elem_of_app in Hd as [Hd|Hd].
        -- specialize (Hb d Hd). lia.
        -- apply elem_of_cons in Hd as [->|Hd]; [lia|]. specialize (Ha d Hd). lia.
    + destruct (IH m eq_refl) as (b & a & -> & Hb & Ha).
      exists (x :: b), a. split; [reflexivity|]. split; [|exact Ha].
      intros d Hd. apply elem_of_cons in Hd as [->|Hd]; [lia|]. apply Hb, Hd.
  - intros [= <-]. destruct l as [|y l]; [|simpl in Hm; destruct (first_shortest l);
      [destruct (_ <=? _)%nat|]; discriminate].
    exists [], []. repeat split; intros d Hd; inversion Hd.
Qed.

Lemma first_shortest_None (l : list Command) : first_shortest l = None → l = [].
Proof.
  destruct l as [|x l]; simpl; [reflexivity|].
  destruct (first_shortest l); [destruct (_ <=? _)%nat|]; discriminate.
Qed.

Lemma walk_find_spec (cmds : list Command) (prevPath : list string) (currName : string) :
  walk_find cmds prevPath currName
  = first_shortest (List.filter (fits prevPath currName) cmds).
Proof.
  unfold walk_find. rewrite find_head_filter, filter_sort. apply head_sort.
Qed.

(** The step of the walk over given commands (what [plugin.commands] would
    be). At each step of the walk of findCommand, the candidates are the
    commands of the plugin whose parent path is the accumulated path and whose
    name or aliases contain the token. When there are none the accumulated
    path stays as it is. Otherwise the step takes a candidate no longer than
    any other, and every candidate listed before it in the plugin's commands is
    strictly longer: the first of the shortest ones. The accumulated path
    becomes that command's commandPath. *)
Theorem walk_step_first_shortest
    (cmds : list Command) (prevPath : list string) (currName : string) :
  match walk_find cmds prevPath currName with
  | None =>
    List.filter (fits prevPath currName) cmds = []
    ∧ walk_step cmds prevPath currName = prevPath
  | Some cmd =>
    (∃ before after,
        List.filter (fits prevPath currName) cmds = before ++ cmd :: after
        ∧ (∀ d, d ∈ before → (length (commandPath cmd) < length (commandPath d))%nat)
        ∧ (∀ d, d ∈ after → (length (commandPath cmd) ≤ length (commandPath d))%nat))
    ∧ walk_step cmds prevPath currName = commandPath cmd
  end.
Proof.
  unfold walk_step. rewrite walk_find_spec.
  destruct (first_shortest _) as [cmd|] eqn:H.
  - split; [|reflexivity]. apply first_shortest_split, H.
  - split; [|reflexivity]. apply first_shortest_None, H.
Qed.

Example walk_find_prefers_shorter :
  walk_find [Fixture.long_a; Fixture.short_a] [] "a" = Some Fixture.short_a
  ∧ walk_find [Fixture.cmd_a; Fixture.cmd_b] [] "x" = Some Fixture.cmd_a.
Proof. split; reflexivity. Qed.

(** ** Tokens that match nothing *)

Lemma filter_none {A} (P : A → bool) (l : list A) :
  Forall (λ x, P x = false) l → List.filter P l = [].
Proof.
  induction 1 as [|x l Hx _ IH]; simpl; [reflexivity|]. rewrite Hx. exact IH.
Qed.

Lemma walk_unmatched (cmds : list Command) (path : list string) :
  Forall (λ tok, Forall (λ c, fits [] tok c = false) cmds) path →
  walk cmds path = [].
Proof.
  unfold walk. induction 1 as [|tok path Htok _ IH]; simpl; [reflexivity|].
  unfold walk_step at 2. rewrite walk_find_spec, (filter_none _ _ Htok). exact IH.
Qed.

Lemma findCommand_returns (plugin context : Plugin) (path : option (list string)) :
  ∃ r, findCommand (Some plugin) (Some context) path = Return r.
Proof.
  unfold findCommand. repeat case_bool_decide; eauto.
Qed.

Lemma findCommand_unmatched (plugin context : Plugin) (path : list string) :
  Forall (λ tok, Forall (λ c, fits [] tok c = false) (commands plugin)) path →
  findCommand (Some plugin) (Some context) (Some path)
  = Return (default_command plugin context).
Proof.
  intros H. unfold findCommand, default_command. simpl.
  rewrite (walk_unmatched _ _ H). simpl.
  case_bool_decide as Hc; [|reflexivity]. rewrite Hc. reflexivity.
Qed.

(** With the identifier [plugin] bound, findCommand returns a result for
    every token path (the walk is a fold over the tokens, one step each), and
    when no token of the path matches a top-level command by name or alias,
    the empty path included, the result is the default command, the first
    command of [context.commands] whose commandPath is [[plugin.name]], or
    none when there is no such command. *)
Theorem findCommand_unmatched_default (plugin context : Plugin) (path : list string) :
  (∃ r, findCommand (Some plugin) (Some context) (Some path) = Return r)
  ∧ (Forall (λ tok, Forall (λ c, fits [] tok c = false) (commands plugin)) path →
     findCommand (Some plugin) (Some context) (Some path)
     = Return (default_command plugin context)).
Proof.
  split; [apply findCommand_returns|apply findCommand_unmatched].
Qed.

Lemma findCommand_unmatched_default_witness :
  findCommand (Some Fixture.args) (Some Fixture.args) (Some ["nope"; "sub"; "x"])
  = Return (Some Fixture.args_default).
Proof.
  apply (proj2 (findCommand_unmatched_default Fixture.args Fixture.args ["nope"; "sub"; "x"])).
  repeat constructor.
Defined.

(** ** Aliases *)

Lemma fits_own_name (cmd : Command) :
  fits (slice_init (commandPath cmd)) (name cmd) cmd = true.
Proof.
  unfold fits, equals. rewrite !bool_decide_eq_true_2 by reflexivity. reflexivity.
Qed.

Lemma fits_own_alias (cmd : Command) (a : string) :
  a ∈ alias cmd → fits (slice_init (commandPath cmd)) a cmd = true.
Proof.
  intros Ha. unfold fits, equals, includes.
  rewrite bool_decide_eq_true_2 by reflexivity.
  rewrite (bool_decide_eq_true_2 (a ∈ alias cmd)) by exact Ha.
  apply orb_true_r.
Qed.

Lemma fits_inv (prevPath : list string) (tok : string) (d : Command) :
  fits prevPath tok d = true →
  slice_init (commandPath d) = prevPath ∧ (name d = tok ∨ tok ∈ alias d).
Proof.
  unfold fits, equals, includes. intros H.
  apply andb_true_iff in H as [H1 H2]. apply bool_decide_eq_true in H1.
  apply orb_true_iff in H2 as [H2|H2]; apply bool_decide_eq_true in H2; auto.
Qed.

(** A command that is the only one under its parent path to answer to a
    token is what the step finds for that token. *)
Lemma walk_find_only (cmds : list Command) (cmd : Command) (tok : string) :
  cmd ∈ cmds →
  fits (slice_init (commandPath cmd)) tok cmd = true →
  (∀ d, d ∈ cmds → fits (slice_init (commandPath cmd)) tok d = true → d = cmd) →
  walk_find cmds (slice_init (commandPath cmd)) tok = Some cmd.
Proof.
  intros Hin Hfit Honly. rewrite walk_find_spec.
  destruct (first_shortest _) as [c|] eqn:H.
  - apply first_shortest_split in H as (b & a & H & _).
    assert (Hc : In c (List.filter (fits (slice_init (commandPath cmd)) tok) cmds)).
    { rewrite H. apply in_or_app. right. left. reflexivity. }
    apply filter_In in Hc as [Hc1 Hc2]. f_equal. apply Honly; [|exact Hc2].
    apply list_elem_of_In, Hc1.
  - apply first_shortest_None in H.
    assert (Hc : In cmd (List.filter (fits (slice_init (commandPath cmd)) tok) cmds)).
    { apply filter_In. split; [apply list_elem_of_In, Hin|exact Hfit]. }
    rewrite H in Hc. destruct Hc.
Qed.

Lemma walk_app (cmds : list Command) (pre : list string) (tok : string) (post : list string) :
  walk cmds (pre ++ tok :: post)
  = fold_left (walk_step cmds) post (walk_step cmds (walk cmds pre) tok).
Proof. unfold walk. rewrite fold_left_app. reflexivity. Qed.

Lemma findCommand_walk_eq (plugin context : Plugin) (p q : list string) :
  walk (commands plugin) p = walk (commands plugin) q →
  findCommand (Some plugin) (Some context) (Some p)
  = findCommand (Some plugin) (Some context) (Some q).
Proof. unfold findCommand. simpl. intros ->. reflexivity. Qed.

(** With the identifier [plugin] bound. Let [cmd] be a command of the plugin and [a] one
    of its aliases, and let the tokens [pre] lead the walk to the parent path
    of [cmd]. If [cmd] is the only command under that parent path whose name
    or aliases contain [a], and the only one whose name or aliases contain the
    name of [cmd], then at that point both tokens take the walk to the
    commandPath of [cmd], and the token path with the alias resolves to the
    very result of the token path with the name, whatever tokens follow. *)
Theorem alias_resolves_like_name
    (plugin context : Plugin) (cmd : Command) (a : string) (pre post : list string) :
  cmd ∈ commands plugin →
  a ∈ alias cmd →
  walk (commands plugin) pre = slice_init (commandPath cmd) →
  (∀ d, d ∈ commands plugin →
        slice_init (commandPath d) = slice_init (commandPath cmd) →
        (name d = a ∨ a ∈ alias d ∨ name d = name cmd ∨ name cmd ∈ alias d) →
        d = cmd) →
  walk (commands plugin) (pre ++ [a]) = commandPath cmd
  ∧ walk (commands plugin) (pre ++ [name cmd]) = commandPath cmd
  ∧ findCommand (Some plugin) (Some context) (Some (pre ++ a :: post))
    = findCommand (Some plugin) (Some context) (Some (pre ++ name cmd :: post)).
Proof.
  intros Hin Ha Hpre Honly.
  assert (Hstep_a : walk_step (commands plugin) (walk (commands plugin) pre) a
                    = commandPath cmd).
  { unfold walk_step. rewrite Hpre.
    rewrite (walk_find_only (commands plugin) cmd a Hin (fits_own_alias cmd a Ha));
      [reflexivity|].
    intros d Hd Hf. apply fits_inv in Hf as [Hp Hm].
    apply Honly; [exact Hd|exact Hp|destruct Hm; auto]. }
  assert (Hstep_n : walk_step (commands plugin) (walk (commands plugin) pre) (name cmd)
                    = commandPath cmd).
  { unfold walk_step. rewrite Hpre.
    rewrite (walk_find_only (commands plugin) cmd (name cmd) Hin (fits_own_name cmd));
      [reflexivity|].
    intros d Hd Hf. apply fits_inv in Hf as [Hp Hm].
    apply Honly; [exact Hd|exact Hp|destruct Hm; auto]. }
  split; [|split].
  - rewrite walk_app. exact Hstep_a.
  - rewrite walk_app. exact Hstep_n.
  - apply findCommand_walk_eq. rewrite !walk_app, Hstep_a, Hstep_n. reflexivity.
Qed.

Lemma alias_resolves_like_name_witness :
  findCommand (Some Fixture.args) (Some Fixture.args) (Some ["c"; "s"])
  = findCommand (Some Fixture.args) (Some Fixture.args) (Some ["config"; "s"]).
Proof.
  refine (proj2 (proj2 (alias_resolves_like_name Fixture.args Fixture.args
                          Fixture.args_config "c" [] ["s"] _ _ _ _))).
  - apply list_elem_of_In. simpl. auto.
  - apply list_elem_of_In. simpl. auto.
  - reflexivity.
  - intros d Hd. apply list_elem_of_In in Hd. simpl in Hd.
    destruct Hd as [<-|[<-|[<-|[]]]]; simpl; intros Hp Hm.
    + exfalso. destruct Hm as [Hm|[Hm|[Hm|Hm]]]; try discriminate;
        apply list_elem_of_In in Hm; destruct Hm.
    + reflexivity.
    + discriminate.
Defined.

(** With the identifier [plugin] bound, an alias shared by two siblings goes
    to the first: [cmd_b] has the alias [x], but the token [x] resolves
    to its sibling [cmd_a], listed first with the same alias, while the token
    [b], the name of [cmd_b], resolves to [cmd_b]. *)
Lemma alias_resolution_counterexample :
  Fixture.cmd_b ∈ commands Fixture.shared
  ∧ "x" ∈ alias Fixture.cmd_b
  ∧ findCommand (Some Fixture.shared) (Some Fixture.shared) (Some ["x"])
    = Return (Some Fixture.cmd_a)
  ∧ findCommand (Some Fixture.shared) (Some Fixture.shared) (Some [name Fixture.cmd_b])
    = Return (Some Fixture.cmd_b)
  ∧ Fixture.cmd_a ≠ Fixture.cmd_b.
Proof.
  split; [apply list_elem_of_In; simpl; auto|].
  split; [apply list_elem_of_In; simpl; auto|].
  split; [reflexivity|]. split; [reflexivity|]. discriminate.
Qed.

(** ** run *)

Section RunFacts.
Variable argv : list string.
Variable normalizeParams : string → string → list string → Parameters.
Variable call_setup : Handle → RunContext → Completion RunContext.
Variable call_run : Handle → RunContext → Completion (RunContext * Value).

Local Abbreviation commandArray_of := (commandArray_of argv).
Local Abbreviation resolve := (resolve argv).
Local Abbreviation prepare := (prepare normalizeParams).
Local Abbreviation mergedParameters := (mergedParameters normalizeParams).
Local Abbreviation forEach_setup := (forEach_setup call_setup).
Local Abbreviation kickOff := (kickOff call_setup call_run).
Local Abbreviation run := (run argv normalizeParams call_setup call_run).

(** *** What the selection leaves on the context *)

Lemma select_fresh (this : Runtime) (commandArray : list string) :
  let context := fst (select this commandArray) in
  runtime context = Some this ∧ ctx_command context = None
  ∧ ctx_config context = None ∧ parameters context = None
  ∧ result context = None ∧ attached context = ∅.
Proof.
  unfold select. destruct (head commandArray) as [commandName|]; simpl.
  - destruct (truthy commandName); simpl;
      [destruct (includes _ _); simpl|]; repeat split.
  - repeat split.
Qed.

Lemma resolve_inv (plugin_binding : option Plugin) (this : Runtime)
    (rawCommand : RawCommand) (context : RunContext) (commandArray : list string) :
  resolve plugin_binding this rawCommand = Return (context, commandArray) →
  ∃ selected command,
    select this (commandArray_of rawCommand) = (selected, commandArray)
    ∧ findCommand plugin_binding (ctx_plugin selected) (Some commandArray) = Return command
    ∧ context = set_command selected command.
Proof.
  unfold resolve. destruct (select _ _) as [selected arr] eqn:Hsel.
  destruct (findCommand _ _ _) as [command|e] eqn:Hfind; [|discriminate].
  intros [= <- <-]. eauto.
Qed.

Lemma resolve_fresh (plugin_binding : option Plugin) (this : Runtime)
    (rawCommand : RawCommand) (context : RunContext) (commandArray : list string) :
  resolve plugin_binding this rawCommand = Return (context, commandArray) →
  runtime context = Some this ∧ ctx_config context = None
  ∧ parameters context = None ∧ result context = None ∧ attached context = ∅.
Proof.
  intros H. apply resolve_inv in H as (selected & command & Hsel & _ & ->).
  pose proof (select_fresh this (commandArray_of rawCommand)) as Hf.
  rewrite Hsel in Hf. simpl in Hf. simpl. tauto.
Qed.

Lemma run_resolved (plugin_binding : option Plugin) (this : Runtime)
    (rawCommand : RawCommand) (options_arg : option Obj)
    (context : RunContext) (commandArray : list string)
    (plugin : Plugin) (command : Command) :
  resolve plugin_binding this rawCommand = Return (context, commandArray) →
  ctx_plugin context = Some plugin →
  ctx_command context = Some command →
  ∀ log, run plugin_binding this rawCommand options_arg log
         = kickOff this (prepare this options_arg context commandArray plugin command) log.
Proof.
  intros Hres Hp Hc log. unfold run, bind, lift.
  rewrite Hres. simpl. rewrite Hp, Hc. reflexivity.
Qed.

(** When the plugin or the command is missing after a resolution that did not
    throw, run hands back the context as it is: no config, no parameters, no
    result, nothing called. *)
Lemma run_no_match (plugin_binding : option Plugin) (this : Runtime)
    (rawCommand : RawCommand) (options_arg : option Obj)
    (context : RunContext) (commandArray : list string) :
  resolve plugin_binding this rawCommand = Return (context, commandArray) →
  ctx_plugin context = None ∨ ctx_command context = None →
  run plugin_binding this rawCommand options_arg [] = (Return context, [])
  ∧ ctx_config context = None ∧ parameters context = None ∧ result context = None.
Proof.
  intros Hres Hnil. destruct (resolve_fresh _ _ _ _ _ Hres) as (_ & ? & ? & ? & _).
  split; [|auto]. unfold run, bind, lift. rewrite Hres. simpl.
  destruct Hnil as [-> | ->]; [reflexivity|]. destruct (ctx_plugin context); reflexivity.
Qed.

(** *** Configuration layering *)

Lemma merge_lookup (base over : Obj) (key : string) :
  merge base over !! key
  = match over !! key with Some v => Some v | None => base !! key end.
Proof.
  unfold merge. rewrite lookup_union. destruct (over !! key), (base !! key); reflexivity.
Qed.

Lemma merge_empty (base : Obj) : merge base ∅ = base.
Proof. unfold merge. apply (left_id ∅ (∪)). Qed.

(** Had a plugin and a command been resolved. For a resolved plugin and command, run goes on with a context whose
    config is the Runtime's base config with, under the plugin's name, the
    plugin's own defaults overlaid key by key with the Runtime's defaults for
    that name (nothing when there are none): a key of the Runtime's defaults
    wins, any other key keeps the plugin's value. Plugin defaults
    {color: 'blue'} without Runtime defaults give {color: 'blue'}; with the
    Runtime defaults {color: 'red'} they give {color: 'red'}. *)
Theorem run_effective_config (plugin_binding : option Plugin) (this : Runtime)
    (rawCommand : RawCommand) (options_arg : option Obj)
    (context : RunContext) (commandArray : list string)
    (plugin : Plugin) (command : Command) :
  resolve plugin_binding this rawCommand = Return (context, commandArray) →
  ctx_plugin context = Some plugin →
  ctx_command context = Some command →
  let overrides := defaults this ≫= (λ d, d !! plugin_name plugin) in
  let layered := merge (plugin_defaults plugin) (default ∅ overrides) in
  ∃ prepared,
    (∀ log, run plugin_binding this rawCommand options_arg log = kickOff this prepared log)
    ∧ ctx_config prepared = Some (<[ plugin_name plugin := VObj layered ]> (config this))
    ∧ (∀ key, layered !! key
              = match default ∅ overrides !! key with
                | Some v => Some v
                | None => plugin_defaults plugin !! key
                end)
    ∧ (plugin_defaults plugin = {[ "color" := VStr "blue" ]} →
       overrides = None →
       layered = {[ "color" := VStr "blue" ]})
    ∧ (plugin_defaults plugin = {[ "color" := VStr "blue" ]} →
       overrides = Some {[ "color" := VStr "red" ]} →
       layered = {[ "color" := VStr "red" ]}).
Proof.
  intros Hres Hp Hc overrides layered.
  exists (prepare this options_arg context commandArray plugin command).
  split; [apply run_resolved; assumption|].
  split; [reflexivity|]. split; [intros key; apply merge_lookup|].
  subst layered. split.
  - intros -> ->. apply merge_empty.
  - intros -> ->. simpl. apply map_eq. intros key. rewrite merge_lookup.
    destruct (decide (key = "color")) as [->|Hne].
    + rewrite !lookup_singleton_eq. reflexivity.
    + rewrite !lookup_singleton_ne by congruence. reflexivity.
Qed.

(** *** Parameters *)

(** Had a plugin and a command been resolved. For a resolved plugin and command, run builds the parameters with the
    Parameter Normalizer, called with the plugin's name, the command's name and
    the remaining tokens, and replaces their options by the merge of the
    normalizer's options with the options passed to run (none when omitted):
    a key of the caller's options carries the caller's value, any other key
    keeps the normalizer's. *)
Theorem run_merges_options (plugin_binding : option Plugin) (this : Runtime)
    (rawCommand : RawCommand) (options_arg : option Obj)
    (context : RunContext) (commandArray : list string)
    (plugin : Plugin) (command : Command) :
  resolve plugin_binding this rawCommand = Return (context, commandArray) →
  ctx_plugin context = Some plugin →
  ctx_command context = Some command →
  let normalized := normalizeParams (plugin_name plugin) (name command) commandArray in
  let caller := default ∅ options_arg in
  ∃ prepared merged,
    (∀ log, run plugin_binding this rawCommand options_arg log = kickOff this prepared log)
    ∧ parameters prepared = Some (set_options normalized merged)
    ∧ merged = merge (options normalized) caller
    ∧ (∀ key v, caller !! key = Some v → merged !! key = Some v)
    ∧ (∀ key, caller !! key = None → merged !! key = options normalized !! key).
Proof.
  intros Hres Hp Hc normalized caller.
  exists (prepare this options_arg context commandArray plugin command),
         (merge (options normalized) caller).
  split; [apply run_resolved; assumption|].
  split; [reflexivity|]. split; [reflexivity|].
  split; [intros key v H|intros key H]; rewrite merge_lookup, H; reflexivity.
Qed.

(** *** Commands without a behaviour *)

(** Had a command been resolved. When the resolved command has no run function, run returns the
    context with plugin, command, config and parameters in place and the result
    unset; no extension is set up, the command is not called (the log of calls
    stays empty) and nothing is thrown. *)
Theorem run_without_behaviour (plugin_binding : option Plugin) (this : Runtime)
    (rawCommand : RawCommand) (options_arg : option Obj)
    (context : RunContext) (commandArray : list string)
    (plugin : Plugin) (command : Command) :
  resolve plugin_binding this rawCommand = Return (context, commandArray) →
  ctx_plugin context = Some plugin →
  ctx_command context = Some command →
  run_of command = None →
  ∃ returned,
    run plugin_binding this rawCommand options_arg [] = (Return returned, [])
    ∧ ctx_plugin returned = Some plugin
    ∧ ctx_command returned = Some command
    ∧ ctx_config returned = Some (effectiveConfig this plugin)
    ∧ parameters returned
      = Some (mergedParameters plugin command commandArray options_arg)
    ∧ result returned = None.
Proof.
  intros Hres Hp Hc Hrun.
  exists (prepare this options_arg context commandArray plugin command).
  split.
  - rewrite (run_resolved _ _ _ _ _ _ _ _ Hres Hp Hc).
    unfold kickOff. simpl. rewrite Hc, Hrun. reflexivity.
  - destruct (resolve_fresh _ _ _ _ _ Hres) as (_ & _ & _ & Hr & _).
    simpl. auto.
Qed.

(** *** The extension pipeline *)

Lemma forEach_setup_cons (extension : Extension) (rest : list Extension)
    (context : RunContext) (log : list Event) :
  forEach_setup (extension :: rest) context log
  = match call_setup (setup extension) context with
    | Return context' => forEach_setup rest context' (log ++ [EvSetup extension context])
    | Throw e => (Throw e, log ++ [EvSetup extension context])
    end.
Proof.
  simpl. unfold bind, emit, lift.
  destruct (call_setup (setup extension) context); reflexivity.
Qed.

Lemma forEach_setup_log (exts : list Extension) (context : RunContext) (log : list Event) :
  ∃ contexts,
    snd (forEach_setup exts context log) = log ++ zip_with EvSetup exts contexts
    ∧ match fst (forEach_setup exts context log) with
      | Return _ => length contexts = length exts
      | Throw _ => True
      end.
Proof.
  revert context log. induction exts as [|extension rest IH]; intros context log.
  - exists []. simpl. rewrite app_nil_r. auto.
  - rewrite forEach_setup_cons.
    destruct (call_setup (setup extension) context) as [context'|e].
    + destruct (IH context' (log ++ [EvSetup extension context])) as (contexts & Hlog & Hlen).
      exists (context :: contexts). rewrite Hlog. simpl. rewrite <- List.app_assoc. simpl.
      split; [reflexivity|].
      destruct (fst _); [congruence|exact I].
    + exists [context]. simpl. destruct rest; simpl; auto.
Qed.

Lemma setups_no_run (exts : list Extension) (contexts : list RunContext)
    (command : Command) (context : RunContext) :
  EvRun command context ∉ zip_with EvSetup exts contexts.
Proof.
  revert contexts. induction exts as [|e exts IH]; intros [|c contexts]; simpl;
    try apply not_elem_of_nil.
  intros H. apply elem_of_cons in H as [H|H]; [discriminate|]. exact (IH _ H).
Qed.

Lemma kickOff_log (this : Runtime) (context : RunContext) (log : list Event) :
  ∃ contexts,
    snd (kickOff this context log) = log ++ zip_with EvSetup (extensions this) contexts
    ∨ (length contexts = length (extensions this)
       ∧ ∃ command context',
           snd (kickOff this context log)
           = log ++ zip_with EvSetup (extensions this) contexts ++ [EvRun command context']).
Proof.
  unfold kickOff.
  destruct (ctx_command context) as [command|];
    [|exists []; left; simpl; destruct (extensions this); simpl; rewrite app_nil_r; reflexivity].
  destruct (run_of command);
    [|exists []; left; simpl; destruct (extensions this); simpl; rewrite app_nil_r; reflexivity].
  destruct (forEach_setup_log (extensions this) context log) as (contexts & Hlog & Hlen).
  exists contexts. unfold bind, emit, lift, throw, ret. cbv beta.
  destruct (forEach_setup (extensions this) context log) as [[context'|e] log'];
    simpl in Hlog, Hlen; subst log'; [|left; reflexivity].
  destruct (ctx_command context') as [command'|]; [|left; reflexivity].
  destruct (run_of command') as [behaviour|]; [|left; reflexivity].
  right. split; [exact Hlen|]. exists command', context'.
  destruct (call_run behaviour context'); simpl; rewrite <- List.app_assoc; reflexivity.
Qed.

(** Had a command been resolved. Whenever run calls a command's behaviour, the calls it has made are
    exactly: the setup of every registered extension, once each and in
    registration order, each with the context, and then the behaviour; a
    setup that throws stops the pipeline and the behaviour is not called. *)
Theorem run_setups_before_command (plugin_binding : option Plugin) (this : Runtime)
    (rawCommand : RawCommand) (options_arg : option Obj)
    (outcome : Completion RunContext) (log : list Event)
    (command : Command) (context : RunContext) :
  run plugin_binding this rawCommand options_arg [] = (outcome, log) →
  EvRun command context ∈ log →
  ∃ contexts,
    length contexts = length (extensions this)
    ∧ log = zip_with EvSetup (extensions this) contexts ++ [EvRun command context].
Proof.
  unfold run, bind at 1, lift.
  destruct (resolve plugin_binding this rawCommand) as [[resolved commandArray]|e];
    [|intros [= _ <-] H; inversion H].
  simpl. intros Hrun Hin.
  assert (Hk : ∃ prepared, log = snd (kickOff this prepared [])).
  { destruct (ctx_plugin resolved) as [plugin|];
      [destruct (ctx_command resolved) as [cmd|]|].
    - eexists. rewrite Hrun. reflexivity.
    - injection Hrun as _ <-. inversion Hin.
    - injection Hrun as _ <-. inversion Hin. }
  destruct Hk as [prepared ->].
  destruct (kickOff_log this prepared []) as (contexts & [Hlog | (Hlen & c & x & Hlog)]);
    rewrite Hlog in Hin |- *; simpl in Hin |- *.
  - exfalso. exact (setups_no_run _ _ _ _ Hin).
  - exists contexts. split; [exact Hlen|].
    apply elem_of_app in Hin as [Hin|Hin]; [exfalso; exact (setups_no_run _ _ _ _ Hin)|].
    apply list_elem_of_singleton in Hin. rewrite Hin. reflexivity.
Qed.

(** *** The command argument *)

(** C10. The empty string is falsy, so run('') takes the live argument vector
    like a call without a command, strips its first two entries, and from
    there on is the same computation: the same outcome and the same calls. *)
Theorem run_empty_string_is_argv (plugin_binding : option Plugin) (this : Runtime)
    (options_arg : option Obj) :
  commandArray_of (RawString "") = drop 2 argv
  ∧ commandArray_of RawAbsent = drop 2 argv
  ∧ run plugin_binding this (RawString "") options_arg
    = run plugin_binding this RawAbsent options_arg.
Proof.
  assert (H : commandArray_of RawAbsent = drop 2 argv).
  { unfold commandArray_of, equals. rewrite bool_decide_eq_true_2; reflexivity. }
  split; [exact H|]. split; [exact H|]. reflexivity.
Qed.

(** *** A plugin that is not there *)

Lemma select_no_plugins (this : Runtime) (commandArray : list string) :
  plugins this = [] → defaultPlugin this = None →
  ctx_plugin (fst (select this commandArray)) = None.
Proof.
  intros Hp Hd. unfold select, pluginNames, findPlugin. rewrite Hp, Hd. simpl.
  destruct (head commandArray) as [commandName|]; simpl; [|reflexivity].
  destruct (truthy commandName); reflexivity.
Qed.

(** The identifier [plugin] is not a parameter of findCommand. Unbound, the
    first read of it throws: in the reducer when there is a token, else in the
    predicate of the default lookup. *)
Lemma findCommand_unbound_plugin (context : Plugin) (path : option (list string)) :
  commands context ≠ [] →
  findCommand None (Some context) path = Throw (ReferenceError "plugin is not defined").
Proof.
  intros H. unfold findCommand. rewrite bool_decide_eq_false_2 by exact H. reflexivity.
Qed.

(** C1, what the code does instead. On a Runtime without plugins the plugin
    looked up is missing whatever the input, and run throws a TypeError out of
    findCommand, which reads [context.commands] of the missing plugin before
    any check; no context is returned. And when the identifier [plugin] that
    findCommand reads is not bound, findCommand throws a ReferenceError for
    every plugin that has a command, whatever the token path. *)
Theorem run_missing_plugin_throws (plugin_binding : option Plugin)
    (brand : string) (extensions : list Extension) (defaults : option (gmap string Obj))
    (config : Obj) (rawCommand : RawCommand) (options_arg : option Obj) (log : list Event) :
  run plugin_binding
      {| brand := brand; plugins := []; extensions := extensions;
         defaults := defaults; config := config; defaultPlugin := None |}
      rawCommand options_arg log
  = (Throw (TypeError "Cannot read property 'commands' of undefined"), log)
  ∧ findCommand plugin_binding None (Some (commandArray_of rawCommand))
    = Throw (TypeError "Cannot read property 'commands' of undefined")
  ∧ (∀ pluginName command others pluginDefaults,
       findCommand None
         (Some {| plugin_name := pluginName; commands := command :: others;
                  plugin_defaults := pluginDefaults |})
         (Some (commandArray_of rawCommand))
       = Throw (ReferenceError "plugin is not defined")).
Proof.
  split; [|split; [reflexivity|]].
  - unfold run, bind, lift, resolve.
    pose proof (select_no_plugins
                  {| brand := brand; plugins := []; extensions := extensions;
                     defaults := defaults; config := config; defaultPlugin := None |}
                  (commandArray_of rawCommand) eq_refl eq_refl) as H.
    destruct (select _ _) as [selected commandArray]. simpl in H. rewrite H. reflexivity.
  - intros. apply findCommand_unbound_plugin. discriminate.
Qed.

(** *** A plugin named by the first token *)

Lemma findPlugin_known (this : Runtime) (first : string) :
  first ∈ pluginNames this →
  ∃ plugin, findPlugin this first = Some plugin
            ∧ plugin_name plugin = first ∧ plugin ∈ plugins this.
Proof.
  unfold pluginNames, findPlugin. induction (plugins this) as [|p ps IH]; simpl.
  - intros H. inversion H.
  - intros H. case_bool_decide as Hp.
    + exists p. repeat split; [exact Hp|left].
    + apply elem_of_cons in H as [H|H]; [congruence|].
      destruct (IH H) as (q & Hq & Hn & Hin). exists q. repeat split; auto. right. exact Hin.
Qed.

(** With the identifier [plugin] bound to the selected plugin. When the first token is a known plugin name and
    not the empty string, run takes the plugin of that name, sets commandName
    to the second token when there is one and it is not the empty string, to
    the plugin name otherwise, and goes on without the first token. With the
    identifier [plugin] of findCommand standing for that plugin, the command
    is what findCommand finds for the remaining tokens; when nothing follows
    the plugin name, commandName is the plugin name and the command is the
    plugin's default command, the first whose commandPath is [[pluginName]],
    or none. *)
Theorem resolve_known_plugin_bound (this : Runtime) (rawCommand : RawCommand)
    (first : string) (rest : list string) :
  commandArray_of rawCommand = first :: rest →
  first ≠ "" →
  first ∈ pluginNames this →
  ∃ plugin context command,
    findPlugin this first = Some plugin
    ∧ plugin_name plugin = first
    ∧ resolve (Some plugin) this rawCommand = Return (context, rest)
    ∧ pluginName context = Some first
    ∧ ctx_plugin context = Some plugin
    ∧ commandName context
      = Some (match rest with
              | second :: _ => if bool_decide (second = "") then first else second
              | [] => first
              end)
    ∧ ctx_command context = command
    ∧ findCommand (Some plugin) (Some plugin) (Some rest) = Return command
    ∧ (rest = [] →
       commandName context = Some first ∧ command = default_command plugin plugin).
Proof.
  intros Harr Hne Hknown.
  destruct (findPlugin_known this first Hknown) as (plugin & Hfind & Hname & _).
  destruct (findCommand_returns plugin plugin (Some rest)) as [command Hcmd].
  assert (Hsel : select this (first :: rest)
                 = (set_plugin
                      (set_commandName
                         (set_pluginName (set_runtime new_RunContext this) first)
                         (match rest with
                          | second :: _ => if bool_decide (second = "") then first else second
                          | [] => first
                          end))
                      (Some plugin), rest)).
  { unfold select, truthy, includes. simpl.
    rewrite (bool_decide_eq_false_2 (first = "")) by exact Hne.
    rewrite (bool_decide_eq_true_2 (first ∈ pluginNames this)) by exact Hknown.
    simpl. rewrite Hfind. unfold drop. f_equal. f_equal.
    destruct rest as [|second rest']; simpl; [reflexivity|].
    destruct (bool_decide (second = "")); reflexivity. }
  eexists plugin, _, command.
  split; [exact Hfind|]. split; [exact Hname|].
  split.
  { unfold resolve. rewrite Harr, Hsel. cbv beta iota. cbn [ctx_plugin set_plugin].
    rewrite Hcmd. reflexivity. }
  simpl. repeat (split; [reflexivity|]). split; [exact Hcmd|].
  intros ->. split; [reflexivity|].
  rewrite (findCommand_unmatched plugin plugin [] (List.Forall_nil _)) in Hcmd. congruence.
Qed.

End RunFacts.

(** ** The theorems at the fixtures *)

(** The scenario of the tests: the [config] command returns the colour, blue
    from the plugin, red when the Runtime's defaults say so. *)
Example can_read_from_config :
  ∃ returned log,
    run_args None (RawString "config") None [] = (Return returned, log)
    ∧ result returned = Some (VStr "blue").
Proof. eexists _, _. split; [vm_compute; reflexivity|reflexivity]. Qed.

Example project_config_trumps_plugin_config :
  ∃ returned log,
    run_args (Some {[ "args" := {[ "color" := VStr "red" ]} ]}) (RawString "config") None []
    = (Return returned, log)
    ∧ result returned = Some (VStr "red").
Proof. eexists _, _. split; [vm_compute; reflexivity|reflexivity]. Qed.

Lemma resolve_config (overrides : option (gmap string Obj)) :
  resolve_args overrides (RawString "config")
  = Return (Fixture.resolved (Fixture.runtime_args overrides) "args" "config"
              Fixture.args (Some Fixture.args_config), ["config"]).
Proof. vm_compute. reflexivity. Defined.

Lemma run_effective_config_witness :
  ∃ prepared,
    (∀ log, run_args None (RawString "config") None log
            = kickOff Fixture.call_setup Fixture.call_run (Fixture.runtime_args None)
                      prepared log)
    ∧ ctx_config prepared = Some {[ "args" := VObj {[ "color" := VStr "blue" ]} ]}.
Proof.
  destruct (run_effective_config Fixture.argv Fixture.normalizeParams
              Fixture.call_setup Fixture.call_run
              (Some Fixture.args) (Fixture.runtime_args None) (RawString "config") None
              _ _ Fixture.args Fixture.args_config
              (resolve_config None) eq_refl eq_refl)
    as (prepared & Hrun & Hcfg & _).
  exists prepared. split; [exact Hrun|]. rewrite Hcfg. vm_compute. reflexivity.
Defined.

Lemma run_merges_options_witness :
  ∃ prepared,
    (∀ log, run_args None (RawString "config") (Some {[ "verbose" := VBool true ]}) log
            = kickOff Fixture.call_setup Fixture.call_run (Fixture.runtime_args None)
                      prepared log)
    ∧ options <$> parameters prepared
      = Some {[ "verbose" := VBool true; "plugin" := VStr "args" ]}.
Proof.
  destruct (run_merges_options Fixture.argv Fixture.normalizeParams
              Fixture.call_setup Fixture.call_run
              (Some Fixture.args) (Fixture.runtime_args None) (RawString "config")
              (Some {[ "verbose" := VBool true ]})
              _ _ Fixture.args Fixture.args_config
              (resolve_config None) eq_refl eq_refl)
    as (prepared & merged & Hrun & Hpar & Hm & _).
  exists prepared. split; [exact Hrun|]. rewrite Hpar, Hm. vm_compute. reflexivity.
Defined.

Lemma run_without_behaviour_witness :
  ∃ returned,
    run_args None (RawString "config sub") None [] = (Return returned, [])
    ∧ ctx_plugin returned = Some Fixture.args
    ∧ ctx_command returned = Some Fixture.args_sub
    ∧ result returned = None.
Proof.
  assert (Hres : resolve_args None (RawString "config sub")
                 = Return (Fixture.resolved (Fixture.runtime_args None) "args" "config"
                             Fixture.args (Some Fixture.args_sub), ["config"; "sub"])).
  { vm_compute. reflexivity. }
  destruct (run_without_behaviour Fixture.argv Fixture.normalizeParams
              Fixture.call_setup Fixture.call_run
              (Some Fixture.args) (Fixture.runtime_args None) (RawString "config sub") None
              _ _ Fixture.args Fixture.args_sub Hres eq_refl eq_refl eq_refl)
    as (returned & Hrun & Hp & Hc & _ & _ & Hr).
  exists returned. auto.
Defined.

Lemma run_setups_before_command_witness :
  ∃ contexts command context,
    length contexts = 2%nat
    ∧ snd (run_args None (RawString "config") None [])
      = zip_with EvSetup [Fixture.strings_ext; Fixture.print_ext] contexts
        ++ [EvRun command context].
Proof.
  assert (Hlog : ∃ e1 e2 command context,
             snd (run_args None (RawString "config") None [])
             = [e1; e2; EvRun command context]).
  { eexists _, _, _, _. vm_compute. reflexivity. }
  destruct Hlog as (e1 & e2 & command & context & Hlog).
  destruct (run_setups_before_command Fixture.argv Fixture.normalizeParams
              Fixture.call_setup Fixture.call_run
              (Some Fixture.args) (Fixture.runtime_args None) (RawString "config") None
              _ _ command context (surjective_pairing _))
    as (contexts & Hlen & Hlog').
  - rewrite Hlog. apply list_elem_of_In. right. right. left. reflexivity.
  - exists contexts, command, context. split; [exact Hlen|exact Hlog'].
Defined.

Lemma resolve_known_plugin_bound_witness :
  ∃ context,
    resolve_args None (RawString "args") = Return (context, [])
    ∧ commandName context = Some "args"
    ∧ ctx_command context = Some Fixture.args_default.
Proof.
  assert (Harr : commandArray_of Fixture.argv (RawString "args") = ["args"]).
  { vm_compute. reflexivity. }
  destruct (resolve_known_plugin_bound Fixture.argv (Fixture.runtime_args None)
              (RawString "args") "args" [] Harr)
    as (plugin & context & command & Hfind & _ & Hres & _ & _ & _ & Hc & _ & Hnil).
  - discriminate.
  - apply list_elem_of_In. left. reflexivity.
  - assert (Hp : plugin = Fixture.args).
    { assert (Hf : findPlugin (Fixture.runtime_args None) "args" = Some Fixture.args)
        by (vm_compute; reflexivity).
      rewrite Hf in Hfind. injection Hfind as <-. reflexivity. }
    subst plugin. exists context.
    destruct (Hnil eq_refl) as [Hn ->]. split; [exact Hres|]. split; [exact Hn|].
    rewrite Hc. vm_compute. reflexivity.
Defined.

(** With the identifier [plugin] bound: in the tokens of 'args ' the second token is there,
    the empty string, and run sets commandName to the plugin name. *)
Lemma second_token_bound :
  commandArray_of Fixture.argv (RawString "args ") = ["args"; ""]
  ∧ "args" ∈ pluginNames (Fixture.runtime_args None)
  ∧ ∃ returned log,
      run_args None (RawString "args ") None [] = (Return returned, log)
      ∧ pluginName returned = Some "args"
      ∧ commandName returned = Some "args"
      ∧ commandName returned ≠ ["args"; ""] !! 1%nat.
Proof.
  split; [vm_compute; reflexivity|].
  split; [apply list_elem_of_In; left; reflexivity|].
  eexists _, _. split; [vm_compute; reflexivity|]. split; [reflexivity|].
  split; [reflexivity|discriminate].
Qed.

(** * Further properties of the code *)

(** ** findCommand, with the identifier [plugin] bound *)

Lemma walk_find_some (cmds : list Command) (prevPath : list string) (tok : string)
    (c : Command) :
  walk_find cmds prevPath tok = Some c →
  c ∈ cmds ∧ fits prevPath tok c = true.
Proof.
  unfold walk_find. intros H. apply find_some in H as [Hin Hfit].
  split; [|exact Hfit]. apply list_elem_of_In, sort_In, Hin.
Qed.

Lemma find_some_elem {A} (P : A → bool) (l : list A) (x : A) :
  find P l = Some x → x ∈ l ∧ P x = true.
Proof. intros H. apply find_some in H as [H1 H2]. split; [apply list_elem_of_In, H1|exact H2]. Qed.

Lemma find_exists {A} (P : A → bool) (l : list A) (x : A) :
  x ∈ l → P x = true → ∃ y, find P l = Some y ∧ y ∈ l ∧ P y = true.
Proof.
  intros Hin HP. destruct (find P l) as [y|] eqn:Hf.
  - exists y. apply find_some_elem in Hf as [? ?]. auto.
  - exfalso. apply list_elem_of_In in Hin.
    pose proof (find_none P l Hf x Hin) as Hn. congruence.
Qed.

(** What findCommand returns is one of [context.commands], and its
    commandPath is the path the walk ended on, or the plugin's name alone when
    the walk ended on the empty path. *)
Theorem findCommand_result_in_commands
    (plugin context : Plugin) (path : option (list string)) (c : Command) :
  findCommand (Some plugin) (Some context) path = Return (Some c) →
  c ∈ commands context
  ∧ (commandPath c = walk (commands plugin) (default [] path)
     ∨ (walk (commands plugin) (default [] path) = []
        ∧ commandPath c = [plugin_name plugin])).
Proof.
  unfold findCommand. case_bool_decide as Hc; [discriminate|].
  case_bool_decide as Hlen; intros [= H]; apply find_some_elem in H as [Hin Heq];
    unfold equals in Heq; apply bool_decide_eq_true in Heq; split; auto.
  right. split; [|exact Heq]. apply length_zero_iff_nil, Hlen.
Qed.

Lemma findCommand_result_in_commands_witness :
  Fixture.args_sub ∈ commands Fixture.args
  ∧ (commandPath Fixture.args_sub
     = walk (commands Fixture.args) (default [] (Some ["c"; "s"; "x"]))
     ∨ (walk (commands Fixture.args) (default [] (Some ["c"; "s"; "x"])) = []
        ∧ commandPath Fixture.args_sub = [plugin_name Fixture.args])).
Proof.
  apply (findCommand_result_in_commands Fixture.args Fixture.args (Some ["c"; "s"; "x"])).
  vm_compute. reflexivity.
Defined.

Lemma walk_step_extends (cmds : list Command) (prevPath : list string) (tok : string) :
  prevPath `prefix_of` walk_step cmds prevPath tok
  ∧ (length (walk_step cmds prevPath tok) ≤ S (length prevPath))%nat.
Proof.
  unfold walk_step. destruct (walk_find cmds prevPath tok) as [c|] eqn:H.
  - apply walk_find_some in H as [_ Hfit]. apply fits_inv in Hfit as [Hp _].
    unfold slice_init in Hp. destruct (commandPath c) as [|x l] eqn:Hl.
    + simpl in Hp. subst prevPath. split; [reflexivity|simpl; lia].
    + assert (Hne : x :: l ≠ []) by discriminate.
      rewrite (app_removelast_last "" Hne) at 1 2. rewrite Hp. split.
      * exists [List.last (x :: l) ""]. reflexivity.
      * rewrite length_app. simpl. lia.
  - split; [reflexivity|lia].
Qed.

Lemma fold_walk_extends (cmds : list Command) (post : list string) (acc : list string) :
  acc `prefix_of` fold_left (walk_step cmds) post acc
  ∧ (length (fold_left (walk_step cmds) post acc) ≤ length acc + length post)%nat.
Proof.
  revert acc. induction post as [|tok post IH]; intros acc; simpl.
  - split; [reflexivity|lia].
  - destruct (IH (walk_step cmds acc tok)) as [Hp Hl].
    destruct (walk_step_extends cmds acc tok) as [Hp' Hl'].
    split; [etrans; eassumption|lia].
Qed.

(** The walk only ever goes down: the path accumulated after some tokens is a
    prefix of the path accumulated after more tokens, and the path is never
    longer than the number of tokens read. *)
Theorem walk_only_descends (cmds : list Command) (pre post : list string) :
  walk cmds pre `prefix_of` walk cmds (pre ++ post)
  ∧ (length (walk cmds (pre ++ post)) ≤ length (pre ++ post))%nat.
Proof.
  split.
  - unfold walk. rewrite fold_left_app. apply fold_walk_extends.
  - unfold walk. destruct (fold_walk_extends cmds (pre ++ post) []) as [_ H].
    simpl in H. exact H.
Qed.

Lemma fold_walk_unmatched (cmds : list Command) (skipped : list string) (acc : list string) :
  Forall (λ tok, Forall (λ c, fits acc tok c = false) cmds) skipped →
  fold_left (walk_step cmds) skipped acc = acc.
Proof.
  induction 1 as [|tok skipped Htok _ IH]; simpl; [reflexivity|].
  unfold walk_step at 2. rewrite walk_find_spec, (filter_none _ _ Htok). exact IH.
Qed.

(** Tokens that fit no command where the walk stands are skipped: taking
    them out of the token path changes neither the walk nor the command
    found. Arguments after a command's name are such tokens. *)
Theorem unmatched_tokens_skipped
    (plugin context : Plugin) (pre skipped post : list string) :
  Forall (λ tok, Forall (λ c, fits (walk (commands plugin) pre) tok c = false)
                        (commands plugin)) skipped →
  walk (commands plugin) (pre ++ skipped ++ post) = walk (commands plugin) (pre ++ post)
  ∧ findCommand (Some plugin) (Some context) (Some (pre ++ skipped ++ post))
    = findCommand (Some plugin) (Some context) (Some (pre ++ post)).
Proof.
  intros H.
  assert (Hw : walk (commands plugin) (pre ++ skipped ++ post)
               = walk (commands plugin) (pre ++ post)).
  { unfold walk. rewrite !fold_left_app. fold (walk (commands plugin) pre).
    rewrite (fold_walk_unmatched _ _ _ H). reflexivity. }
  split; [exact Hw|]. apply findCommand_walk_eq, Hw.
Qed.

Lemma unmatched_tokens_skipped_witness :
  findCommand (Some Fixture.args) (Some Fixture.args)
              (Some (["config"] ++ ["--flag"; "value"] ++ ["sub"]))
  = findCommand (Some Fixture.args) (Some Fixture.args) (Some (["config"] ++ ["sub"])).
Proof.
  apply (unmatched_tokens_skipped Fixture.args Fixture.args
           ["config"] ["--flag"; "value"] ["sub"]).
  repeat constructor.
Defined.

Lemma fold_walk_invariant (cmds : list Command) (path : list string) (acc : list string) :
  (acc = [] ∨ ∃ c, c ∈ cmds ∧ commandPath c = acc) →
  fold_left (walk_step cmds) path acc = []
  ∨ ∃ c, c ∈ cmds ∧ commandPath c = fold_left (walk_step cmds) path acc.
Proof.
  revert acc. induction path as [|tok path IH]; intros acc Hacc; simpl; [exact Hacc|].
  apply IH. unfold walk_step. destruct (walk_find cmds acc tok) as [c|] eqn:H; [|exact Hacc].
  apply walk_find_some in H as [Hin _]. right. exists c. auto.
Qed.

(** When the commands searched by the walk are among [context.commands] and
    the walk ends on a path that is not empty, findCommand finds a command:
    the first of [context.commands] with exactly that commandPath. *)
Theorem findCommand_finds_matched (plugin context : Plugin) (path : list string) :
  (∀ c, c ∈ commands plugin → c ∈ commands context) →
  walk (commands plugin) path ≠ [] →
  ∃ c, findCommand (Some plugin) (Some context) (Some path) = Return (Some c)
       ∧ c ∈ commands context
       ∧ commandPath c = walk (commands plugin) path.
Proof.
  intros Hsub Hne.
  destruct (fold_walk_invariant (commands plugin) path [] (or_introl eq_refl))
    as [H|(c & Hin & Hc)]; [contradiction|].
  fold (walk (commands plugin) path) in Hc.
  destruct (find_exists (λ command, equals (commandPath command)
                                           (walk (commands plugin) path))
                        (commands context) c (Hsub c Hin)) as (y & Hy & Hyin & HP).
  { unfold equals. apply bool_decide_eq_true_2, Hc. }
  exists y. unfold equals in HP. apply bool_decide_eq_true in HP.
  split; [|auto]. unfold findCommand. simpl.
  rewrite bool_decide_eq_false_2.
  - rewrite bool_decide_eq_false_2; [rewrite Hy; reflexivity|].
    intros Hl. apply Hne, length_zero_iff_nil, Hl.
  - intros Hnil. rewrite Hnil in Hyin. inversion Hyin.
Qed.

Lemma findCommand_finds_matched_witness :
  ∃ c, findCommand (Some Fixture.args) (Some Fixture.args) (Some ["cfg"; "zzz"])
       = Return (Some c)
       ∧ c ∈ commands Fixture.args
       ∧ commandPath c = walk (commands Fixture.args) ["cfg"; "zzz"].
Proof.
  apply (findCommand_finds_matched Fixture.args Fixture.args ["cfg"; "zzz"]).
  - auto.
  - vm_compute. discriminate.
Defined.

Lemma fold_walk_unambiguous (cmds : list Command) (path : list string) (acc : list string) :
  unambiguous cmds acc path →
  fold_left (walk_step cmds) path acc = acc ++ path.
Proof.
  revert acc. induction path as [|tok path IH]; intros acc; simpl.
  - intros _. rewrite app_nil_r. reflexivity.
  - intros ((d & Hd & Hfit) & Hall & Hrest).
    assert (Hstep : walk_step cmds acc tok = acc ++ [tok]).
    { unfold walk_step. destruct (walk_find cmds acc tok) as [c|] eqn:H.
      - apply walk_find_some in H as [Hin Hf]. apply Hall; assumption.
      - exfalso. rewrite walk_find_spec in H. apply first_shortest_None in H.
        assert (Hd' : In d (List.filter (fits acc tok) cmds)).
        { apply filter_In. split; [apply list_elem_of_In, Hd|exact Hfit]. }
        rewrite H in Hd'. destruct Hd'. }
    rewrite Hstep, (IH _ Hrest), <- List.app_assoc. reflexivity.
Qed.

(** A token path along which every step has a candidate and every candidate
    is the command one level down named by the token: the walk ends on the
    token path itself, and findCommand returns the first of
    [context.commands] whose commandPath is the token path. *)
Theorem findCommand_exact_path (plugin context : Plugin) (tok : string) (rest : list string) :
  commands context ≠ [] →
  unambiguous (commands plugin) [] (tok :: rest) →
  walk (commands plugin) (tok :: rest) = tok :: rest
  ∧ findCommand (Some plugin) (Some context) (Some (tok :: rest))
    = Return (find (λ command, equals (commandPath command) (tok :: rest))
                   (commands context)).
Proof.
  intros Hne Hu.
  assert (Hw : walk (commands plugin) (tok :: rest) = tok :: rest).
  { unfold walk. rewrite (fold_walk_unambiguous _ _ _ Hu). reflexivity. }
  split; [exact Hw|]. unfold findCommand.
  rewrite bool_decide_eq_false_2 by exact Hne. cbv zeta.
  change (default [] (Some (tok :: rest))) with (tok :: rest).
  rewrite Hw. reflexivity.
Qed.

Lemma findCommand_exact_path_witness :
  findCommand (Some Fixture.args) (Some Fixture.args) (Some ["config"; "sub"])
  = Return (Some Fixture.args_sub).
Proof.
  refine (eq_trans (proj2 (findCommand_exact_path Fixture.args Fixture.args
                             "config" ["sub"] _ _)) _).
  - discriminate.
  - split; [exists Fixture.args_config; split;
              [apply list_elem_of_In; simpl; auto|reflexivity]|].
    split.
    { intros d Hd Hf. apply list_elem_of_In in Hd. simpl in Hd.
      destruct Hd as [<-|[<-|[<-|[]]]];
        first [reflexivity | vm_compute in Hf; discriminate]. }
    split; [exists Fixture.args_sub; split;
              [apply list_elem_of_In; simpl; auto|reflexivity]|].
    split; [|exact I].
    intros d Hd Hf. apply list_elem_of_In in Hd. simpl in Hd.
    destruct Hd as [<-|[<-|[<-|[]]]];
      first [reflexivity | vm_compute in Hf; discriminate].
  - vm_compute. reflexivity.
Defined.

(** ** run: tokens and selection *)

Lemma split_nonempty (d : Ascii.ascii) (s : string) : split d s ≠ [].
Proof.
  destruct s as [|c s]; simpl; [discriminate|].
  destruct (Ascii.eqb c d); [discriminate|]. destruct (split d s); discriminate.
Qed.

Lemma join_split (d : Ascii.ascii) (s : string) : join d (split d s) = s.
Proof.
  induction s as [|c s IH]; simpl; [reflexivity|].
  destruct (Ascii.eqb_spec c d) as [->|Hne].
  - pose proof (split_nonempty d s) as Hn.
    destruct (split d s) as [|w ws]; [contradiction|].
    change (String d (join d (w :: ws)) = String d s). f_equal. exact IH.
  - pose proof (split_nonempty d s) as Hn.
    destruct (split d s) as [|w ws]; [contradiction|].
    rewrite <- IH. simpl. destruct ws; reflexivity.
Qed.

Lemma split_no_delimiter (d : Ascii.ascii) (s : string) :
  Forall (λ w, has_char d w = false) (split d s).
Proof.
  induction s as [|c s IH]; simpl; [repeat constructor|].
  destruct (Ascii.eqb_spec c d) as [->|Hne].
  - constructor; [reflexivity|exact IH].
  - destruct (split d s) as [|w ws]; [repeat constructor; simpl|].
    + destruct (Ascii.eqb_spec c d); [contradiction|reflexivity].
    + apply Forall_cons in IH as [Hw Hws]. constructor; [|exact Hws].
      simpl. rewrite Hw. destruct (Ascii.eqb_spec c d); [contradiction|reflexivity].
Qed.

Section RunMore.
Variable argv : list string.
Variable normalizeParams : string → string → list string → Parameters.
Variable call_setup : Handle → RunContext → Completion RunContext.
Variable call_run : Handle → RunContext → Completion (RunContext * Value).

Local Abbreviation commandArray_of := (commandArray_of argv).
Local Abbreviation resolve := (resolve argv).
Local Abbreviation prepare := (prepare normalizeParams).
Local Abbreviation mergedParameters := (mergedParameters normalizeParams).
Local Abbreviation forEach_setup := (forEach_setup call_setup).
Local Abbreviation kickOff := (kickOff call_setup call_run).
Local Abbreviation run := (run argv normalizeParams call_setup call_run).

(** A command string that is not empty and does not split into the live
    argument vector is cut at every single space: the tokens hold no space,
    there is at least one, and joined with spaces they give the string back
    (two spaces in a row give an empty token). *)
Theorem command_string_tokens (s : string) :
  s ≠ "" →
  split COMMAND_DELIMITER s ≠ argv →
  commandArray_of (RawString s) ≠ []
  ∧ Forall (λ w, has_char COMMAND_DELIMITER w = false) (commandArray_of (RawString s))
  ∧ join COMMAND_DELIMITER (commandArray_of (RawString s)) = s.
Proof.
  intros Hs Hargv. unfold commandArray_of, equals.
  rewrite (bool_decide_eq_false_2 (s = "")) by exact Hs.
  rewrite bool_decide_eq_false_2 by exact Hargv.
  split; [apply split_nonempty|]. split; [apply split_no_delimiter|apply join_split].
Qed.

Lemma run_of_arrays (plugin_binding : option Plugin) (this : Runtime)
    (l l' : list string) (options_arg : option Obj) :
  l ≠ argv → l' ≠ argv → select this l = select this l' →
  run plugin_binding this (RawArray l) options_arg
  = run plugin_binding this (RawArray l') options_arg.
Proof.
  intros Hl Hl' Hsel. unfold run, resolve, commandArray_of, equals.
  rewrite (bool_decide_eq_false_2 (l = argv)) by exact Hl.
  rewrite (bool_decide_eq_false_2 (l' = argv)) by exact Hl'.
  rewrite Hsel. reflexivity.
Qed.

(** Naming the brand plugin in front of a command of it changes nothing:
    when the brand is the name of a loaded plugin and the next token is not,
    run with and without the brand token in front is the same computation. *)
Theorem brand_token_is_optional (plugin_binding : option Plugin) (this : Runtime)
    (first : string) (rest : list string) (options_arg : option Obj) :
  brand this ≠ "" →
  brand this ∈ pluginNames this →
  first ≠ "" →
  first ∉ pluginNames this →
  brand this :: first :: rest ≠ argv →
  first :: rest ≠ argv →
  select this (brand this :: first :: rest) = select this (first :: rest)
  ∧ run plugin_binding this (RawArray (brand this :: first :: rest)) options_arg
    = run plugin_binding this (RawArray (first :: rest)) options_arg.
Proof.
  intros Hb Hbin Hf Hfin Ha Ha'.
  assert (Hsel : select this (brand this :: first :: rest) = select this (first :: rest)).
  { unfold select, truthy, includes. simpl.
    rewrite (bool_decide_eq_false_2 (brand this = "")) by exact Hb.
    rewrite (bool_decide_eq_true_2 (brand this ∈ pluginNames this)) by exact Hbin.
    rewrite (bool_decide_eq_false_2 (first = "")) by exact Hf.
    rewrite (bool_decide_eq_false_2 (first ∈ pluginNames this)) by exact Hfin.
    reflexivity. }
  split; [exact Hsel|]. apply run_of_arrays; assumption.
Qed.

(** The brand alone is the same as no command at all, as long as the default
    plugin, when one is set, is the plugin the brand names. *)
Theorem brand_alone_is_default (plugin_binding : option Plugin) (this : Runtime)
    (options_arg : option Obj) :
  brand this ≠ "" →
  brand this ∈ pluginNames this →
  defaultPlugin this = None ∨ defaultPlugin this = findPlugin this (brand this) →
  [brand this] ≠ argv →
  [] ≠ argv →
  run plugin_binding this (RawArray [brand this]) options_arg
  = run plugin_binding this (RawArray []) options_arg.
Proof.
  intros Hb Hbin Hd Ha Ha'. apply run_of_arrays; [exact Ha|exact Ha'|].
  unfold select, truthy, includes. simpl.
  rewrite (bool_decide_eq_false_2 (brand this = "")) by exact Hb.
  rewrite (bool_decide_eq_true_2 (brand this ∈ pluginNames this)) by exact Hbin.
  simpl. destruct Hd as [-> | Hd]; [reflexivity|].
  rewrite Hd. destruct (findPlugin this (brand this)); reflexivity.
Qed.

(** Whatever the tokens, the selection leaves a plugin name that is the brand
    or a known, non-empty plugin name, and a command name that is the brand or
    not empty; it drops at most the first token, and only when that token is a
    known plugin name; and a plugin it puts on the context is the default
    plugin or carries the selected plugin name. *)
Theorem select_invariant (this : Runtime) (tokens : list string) :
  let context := fst (select this tokens) in
  let remaining := snd (select this tokens) in
  (∃ n, pluginName context = Some n
        ∧ (n = brand this ∨ (n ∈ pluginNames this ∧ n ≠ "")))
  ∧ (∃ c, commandName context = Some c ∧ (c = brand this ∨ c ≠ ""))
  ∧ (remaining = tokens
     ∨ ∃ first, tokens = first :: remaining ∧ first ∈ pluginNames this)
  ∧ (∀ p, ctx_plugin context = Some p →
          defaultPlugin this = Some p ∨ pluginName context = Some (plugin_name p)).
Proof.
  assert (Hfind : ∀ n p, findPlugin this n = Some p → plugin_name p = n).
  { unfold findPlugin. intros n p H. apply find_some in H as [_ H].
    apply bool_decide_eq_true in H. exact H. }
  unfold select, truthy, includes.
  destruct tokens as [|first rest]; simpl.
  - split; [eauto|]. split; [eauto|]. split; [auto|].
    intros p. destruct (defaultPlugin this); simpl; [auto|].
    intros H. right. f_equal. symmetry. apply Hfind, H.
  - case_bool_decide as He; simpl.
    + split; [eauto|]. split; [eauto|]. split; [auto|].
      intros p. destruct (defaultPlugin this); simpl; [auto|].
      intros H. right. f_equal. symmetry. apply Hfind, H.
    + case_bool_decide as Hin; simpl.
      * split; [eauto|]. split.
        { destruct rest as [|second rest']; simpl; [eauto|].
          case_bool_decide; simpl; eauto. }
        split; [right; exists first; auto|].
        intros p H. right. f_equal. symmetry. apply Hfind, H.
      * split; [eauto|]. split; [eauto|]. split; [auto|].
        intros p H. right. f_equal. symmetry. apply Hfind, H.
Qed.

(** *** Exceptions from extensions and commands *)

Lemma forEach_setup_app (pre post : list Extension) (context : RunContext)
    (log : list Event) :
  forEach_setup (pre ++ post) context log
  = match forEach_setup pre context log with
    | (Return context', log') => forEach_setup post context' log'
    | (Throw e, log') => (Throw e, log')
    end.
Proof.
  revert context log. induction pre as [|extension pre IH]; intros context log.
  - reflexivity.
  - change ((extension :: pre) ++ post) with (extension :: (pre ++ post)).
    rewrite !forEach_setup_cons.
    destruct (call_setup (setup extension) context); [apply IH|reflexivity].
Qed.

Lemma kickOff_runnable (this : Runtime) (context : RunContext) (command : Command)
    (behaviour : Handle) (log : list Event) :
  ctx_command context = Some command →
  run_of command = Some behaviour →
  kickOff this context log
  = match forEach_setup (extensions this) context log with
    | (Return context', log') =>
      match ctx_command context' with
      | None => (Throw (TypeError "Cannot read property 'run' of undefined"), log')
      | Some command' =>
        match run_of command' with
        | None => (Throw (TypeError "context.command.run is not a function"), log')
        | Some behaviour' =>
          match call_run behaviour' context' with
          | Return r => (Return (set_result (fst r) (snd r)),
                         log' ++ [EvRun command' context'])
          | Throw e => (Throw e, log' ++ [EvRun command' context'])
          end
        end
      end
    | (Throw e, log') => (Throw e, log')
    end.
Proof.
  intros Hc Hr. unfold kickOff. rewrite Hc, Hr.
  unfold bind, emit, lift, throw, ret. cbv beta.
  destruct (forEach_setup (extensions this) context log) as [[context'|e] log'];
    [|reflexivity].
  destruct (ctx_command context') as [command'|]; [|reflexivity].
  destruct (run_of command') as [behaviour'|]; [|reflexivity].
  destruct (call_run behaviour' context'); reflexivity.
Qed.

(** When the setup of an extension throws, run throws that exception: the
    extensions registered before it have been set up, once each and in order,
    the ones after it are not, and the command's behaviour is not called. *)
Theorem run_setup_throws (plugin_binding : option Plugin) (this : Runtime)
    (rawCommand : RawCommand) (options_arg : option Obj)
    (context : RunContext) (commandArray : list string)
    (plugin : Plugin) (command : Command) (behaviour : Handle)
    (before after : list Extension) (extension : Extension)
    (context' : RunContext) (log' : list Event) (e : Exn) :
  resolve plugin_binding this rawCommand = Return (context, commandArray) →
  ctx_plugin context = Some plugin →
  ctx_command context = Some command →
  run_of command = Some behaviour →
  extensions this = before ++ extension :: after →
  forEach_setup before (prepare this options_arg context commandArray plugin command) []
  = (Return context', log') →
  call_setup (setup extension) context' = Throw e →
  run plugin_binding this rawCommand options_arg []
  = (Throw e, log' ++ [EvSetup extension context'])
  ∧ ∃ contexts, length contexts = length before
                ∧ log' = zip_with EvSetup before contexts.
Proof.
  intros Hres Hp Hc Hr Hexts Hbefore Hthrow. split.
  - rewrite (run_resolved argv normalizeParams call_setup call_run _ _ _ options_arg _ _ _ _ Hres Hp Hc).
    rewrite (kickOff_runnable _ _ command behaviour) by (simpl; assumption).
    rewrite Hexts, forEach_setup_app, Hbefore, forEach_setup_cons, Hthrow. reflexivity.
  - destruct (forEach_setup_log call_setup before
                (prepare this options_arg context commandArray plugin command) [])
      as (contexts & Hlog & Hlen).
    rewrite Hbefore in Hlog, Hlen. simpl in Hlog, Hlen. eauto.
Qed.

(** Once every setup has returned, run calls the behaviour of the command the
    context then holds, once, with that context. What the behaviour throws,
    run throws; what it returns is stored as the result on the context the
    behaviour leaves, and that context is returned. *)
Theorem run_behaviour_outcome (plugin_binding : option Plugin) (this : Runtime)
    (rawCommand : RawCommand) (options_arg : option Obj)
    (context : RunContext) (commandArray : list string)
    (plugin : Plugin) (command command' : Command) (behaviour behaviour' : Handle)
    (context' : RunContext) (log' : list Event) :
  resolve plugin_binding this rawCommand = Return (context, commandArray) →
  ctx_plugin context = Some plugin →
  ctx_command context = Some command →
  run_of command = Some behaviour →
  forEach_setup (extensions this)
                (prepare this options_arg context commandArray plugin command) []
  = (Return context', log') →
  ctx_command context' = Some command' →
  run_of command' = Some behaviour' →
  run plugin_binding this rawCommand options_arg []
  = (match call_run behaviour' context' with
     | Return r => Return (set_result (fst r) (snd r))
     | Throw e => Throw e
     end,
     log' ++ [EvRun command' context']).
Proof.
  intros Hres Hp Hc Hr Hsetups Hc' Hr'.
  rewrite (run_resolved argv normalizeParams call_setup call_run _ _ _ options_arg _ _ _ _ Hres Hp Hc).
  rewrite (kickOff_runnable _ _ command behaviour) by (simpl; assumption).
  rewrite Hsetups, Hc', Hr'. destruct (call_run behaviour' context'); reflexivity.
Qed.

(** *** Parameters and configuration at the edges *)

(** Without an options argument, or with an empty one, the parameters are
    the normalizer's as they come; with one, everything but the options stays
    the normalizer's. *)
Theorem parameters_without_options (plugin : Plugin) (command : Command)
    (commandArray : list string) (options_arg : option Obj) :
  (options_arg = None ∨ options_arg = Some ∅ →
   mergedParameters plugin command commandArray options_arg
   = normalizeParams (plugin_name plugin) (name command) commandArray)
  ∧ fields (mergedParameters plugin command commandArray options_arg)
    = fields (normalizeParams (plugin_name plugin) (name command) commandArray).
Proof.
  split; [|reflexivity].
  intros H. unfold mergedParameters.
  assert (Hd : default ∅ options_arg = (∅ : Obj)) by (destruct H as [-> | ->]; reflexivity).
  rewrite Hd, merge_empty.
  destruct (normalizeParams _ _ _). reflexivity.
Qed.

(** What the base config holds under the plugin's name never reaches the
    command: the entry is replaced by the layered defaults, not merged with
    them. Every other entry of the base config is passed on as it is. *)
Theorem base_entry_replaced (this : Runtime) (plugin : Plugin) (v : Value) (key : string) :
  effectiveConfig (with_config this (<[ plugin_name plugin := v ]> (config this))) plugin
  = effectiveConfig this plugin
  ∧ (key ≠ plugin_name plugin → effectiveConfig this plugin !! key = config this !! key).
Proof.
  unfold effectiveConfig, clone. simpl. split.
  - apply insert_insert_eq.
  - intros Hne. apply lookup_insert_ne. congruence.
Qed.

(** Layering is idempotent: a plugin whose defaults are already the layered
    ones gets the same effective configuration. *)
Theorem layering_idempotent (this : Runtime) (plugin : Plugin) :
  let overrides := default ∅ (defaults this ≫= (λ d, d !! plugin_name plugin)) in
  effectiveConfig this (with_defaults plugin (merge (plugin_defaults plugin) overrides))
  = effectiveConfig this plugin.
Proof.
  unfold effectiveConfig, merge. simpl. f_equal. f_equal.
  rewrite (assoc_L (∪)). f_equal. apply (idemp_L (∪)).
Qed.

End RunMore.

(** ** The Runtime class *)

Section RuntimeClassFacts.
Variable core : CoreExtensions.
Variable loadPluginFromDirectory : string → LoaderOptions → Completion LoadedPlugin.
Variable isBlank : string → bool.
Variable isDirectory : string → bool.
Variable subdirectories : string → bool → option Value → bool → list string.

Local Abbreviation constructor := (constructor core).
Local Abbreviation load := (load loadPluginFromDirectory).
Local Abbreviation map_load := (map_load loadPluginFromDirectory).
Local Abbreviation loadAll :=
  (loadAll loadPluginFromDirectory isBlank isDirectory subdirectories).

Lemma extended_refl (this : Runtime) : extended this this [].
Proof. unfold extended. rewrite app_nil_r. repeat split. Qed.

Lemma extended_trans (a b c : Runtime) (l m : list Extension) :
  extended a b l → extended b c m → extended a c (l ++ m).
Proof.
  unfold extended. intros (?&?&?&?&?&Hl) (?&?&?&?&?&Hm).
  rewrite Hm, Hl, <- List.app_assoc. repeat split; congruence.
Qed.

Lemma addExtension_extended (this : Runtime) (n : string) (h : Handle) :
  extended this (addExtension this n h) [mkExtension n h].
Proof. unfold extended. repeat split. Qed.

Lemma fold_addExtension (exts : list Extension) (this : Runtime) :
  extended this
    (fold_left (λ this extension, addExtension this (ext_name extension) (setup extension))
               exts this)
    exts.
Proof.
  revert this. induction exts as [|e exts IH]; intros this; simpl.
  - apply extended_refl.
  - change (e :: exts) with ([e] ++ exts).
    eapply extended_trans; [|apply IH]. destruct e. apply addExtension_extended.
Qed.

(** A Runtime fresh from the constructor holds the nine core extensions, in
    the order strings, print, template, filesystem, semver, system, http,
    prompt, patching, and no plugin; extensions added afterwards come after
    them, in the order they are added, and add no plugin. *)
Theorem constructor_then_additions (brand : string) (additions : list (string * Handle)) :
  let this :=
    fold_left (λ this a, addExtension this (fst a) (snd a)) additions (constructor brand) in
  map ext_name (extensions this)
  = ["strings"; "print"; "template"; "filesystem"; "semver"; "system"; "http";
     "prompt"; "patching"] ++ map fst additions
  ∧ map setup (extensions this)
    = [addStringsExtension core; addPrintExtension core; addTemplateExtension core;
       addFilesystemExtension core; addSemverExtension core; addSystemExtension core;
       addHttpExtension core; addPromptExtension core; addPatchingExtension core]
      ++ map snd additions
  ∧ plugins this = [] ∧ defaultPlugin this = None.
Proof.
  cbv zeta.
  assert (H : ∀ this,
             extended this
               (fold_left (λ this a, addExtension this (fst a) (snd a)) additions this)
               (map (λ a, mkExtension (fst a) (snd a)) additions)).
  { induction additions as [|a l IH]; intros this; simpl; [apply extended_refl|].
    change (mkExtension a.1 a.2 :: map (λ a, mkExtension a.1 a.2) l)
      with ([mkExtension a.1 a.2] ++ map (λ a, mkExtension a.1 a.2) l).
    eapply extended_trans; [apply addExtension_extended|apply IH]. }
  destruct (H (constructor brand)) as (_ & Hp & _ & _ & Hd & He).
  rewrite He, Hp, Hd, !map_app, !map_map. simpl.
  repeat split; f_equal.
Qed.

(** [load] registers the extensions the loaded plugin brings, after the
    ones already there and in their order, and nothing else: the plugin is not
    added to the Runtime's plugins. When the loader throws, [load] throws and
    the Runtime is as before. *)
Theorem load_registers_extensions_only
    (this : Runtime) (directory : string) (options_arg : option Obj) :
  match loadPluginFromDirectory directory
          {| commandFilePattern := default ∅ options_arg !! "commandFilePattern";
             extensionFilePattern := default ∅ options_arg !! "extensionFilePattern" |}
  with
  | Return loaded =>
    fst (load this directory options_arg) = Return tt
    ∧ extended this (snd (load this directory options_arg)) (loaded_extensions loaded)
    ∧ pluginNames (snd (load this directory options_arg)) = pluginNames this
  | Throw e => load this directory options_arg = (Throw e, this)
  end.
Proof.
  unfold load.
  destruct (loadPluginFromDirectory _ _) as [loaded|e]; [|reflexivity].
  simpl. split; [reflexivity|].
  pose proof (fold_addExtension (loaded_extensions loaded) this) as H.
  split; [exact H|]. unfold pluginNames. destruct H as (_ & -> & _). reflexivity.
Qed.

Lemma load_extended (this : Runtime) (directory : string) (options_arg : option Obj) :
  ∃ added, extended this (snd (load this directory options_arg)) added.
Proof.
  unfold load. destruct (loadPluginFromDirectory _ _) as [loaded|e]; simpl.
  - eexists. apply fold_addExtension.
  - exists []. apply extended_refl.
Qed.

Lemma map_load_extended (dirs : list string) (this : Runtime) (options : Obj) :
  ∃ added, extended this (snd (map_load this dirs options)) added.
Proof.
  revert this. induction dirs as [|dir dirs IH]; intros this; simpl.
  - exists []. apply extended_refl.
  - destruct (load_extended this dir (Some options)) as [a Ha].
    destruct (load this dir (Some options)) as [[[]|e] this1]; simpl in Ha;
      [|exists a; exact Ha].
    destruct (IH this1) as [b Hb].
    destruct (map_load this1 dirs options) as [[others|e] this2]; simpl in Hb |- *;
      exists (a ++ b); eapply extended_trans; eassumption.
Qed.

(** Whatever [loadAll] does, and also when a loader throws midway, the
    Runtime afterwards has the same brand, plugins, defaults, config and
    default plugin, and its extensions start with the extensions it had.
    For a blank directory name or one that is no directory it returns the
    empty array and leaves the Runtime as it is. *)
Theorem loadAll_keeps_runtime (this : Runtime) (directory : string)
    (options_arg : option Obj) :
  (∃ added, extended this (snd (loadAll this directory options_arg)) added)
  ∧ pluginNames (snd (loadAll this directory options_arg)) = pluginNames this
  ∧ (isBlank directory = true ∨ isDirectory directory = false →
     loadAll this directory options_arg = (Return [], this)).
Proof.
  assert (H : ∃ added, extended this (snd (loadAll this directory options_arg)) added).
  { unfold loadAll. destruct (isBlank directory || negb (isDirectory directory)).
    - exists []. apply extended_refl.
    - apply map_load_extended. }
  split; [exact H|]. split.
  - destruct H as (added & _ & Hp & _). unfold pluginNames. rewrite Hp. reflexivity.
  - intros Hb. unfold loadAll.
    destruct Hb as [-> | ->]; [reflexivity|]. rewrite orb_true_r. reflexivity.
Qed.

Lemma map_load_all_loaded (dirs : list string) (loaded : list LoadedPlugin)
    (this : Runtime) (options : Obj) :
  Forall2 (λ dir l,
             loadPluginFromDirectory dir
               {| commandFilePattern := options !! "commandFilePattern";
                  extensionFilePattern := options !! "extensionFilePattern" |}
             = Return l) dirs loaded →
  fst (map_load this dirs options) = Return (replicate (length dirs) tt)
  ∧ extended this (snd (map_load this dirs options))
             (concat (map loaded_extensions loaded)).
Proof.
  intros H. revert this. induction H as [|dir l dirs loaded Hl _ IH]; intros this.
  - simpl. split; [reflexivity|apply extended_refl].
  - simpl. unfold load. simpl. rewrite Hl.
    set (this1 := fold_left _ (loaded_extensions l) this).
    destruct (IH this1) as [Hr He].
    destruct (map_load this1 dirs options) as [[others|e] this2]; simpl in Hr, He;
      [|discriminate].
    injection Hr as ->. simpl. split; [reflexivity|].
    eapply extended_trans; [apply fold_addExtension|exact He].
Qed.

(** For a directory whose subdirectories all load, [loadAll] returns an array
    with one [undefined] per subdirectory, not the plugins, and registers the
    extensions of the loaded plugins in the order of the subdirectories; the
    loader is handed the two file patterns of the options and nothing else. *)
Theorem loadAll_loads_every_subdirectory (this : Runtime) (directory : string)
    (options_arg : option Obj) (loaded : list LoadedPlugin) :
  isBlank directory = false →
  isDirectory directory = true →
  let options := default ∅ options_arg in
  let dirs := subdirectories directory false (options !! "matching") true in
  Forall2 (λ dir l,
             loadPluginFromDirectory dir
               {| commandFilePattern := options !! "commandFilePattern";
                  extensionFilePattern := options !! "extensionFilePattern" |}
             = Return l) dirs loaded →
  fst (loadAll this directory options_arg) = Return (replicate (length dirs) tt)
  ∧ extended this (snd (loadAll this directory options_arg))
             (concat (map loaded_extensions loaded)).
Proof.
  intros Hb Hd options dirs H. unfold loadAll. rewrite Hb, Hd. simpl.
  apply map_load_all_loaded.
  rewrite !lookup_delete_ne by discriminate. exact H.
Qed.

Lemma map_load_options (dirs : list string) (this : Runtime) (o o' : Obj) :
  o !! "commandFilePattern" = o' !! "commandFilePattern" →
  o !! "extensionFilePattern" = o' !! "extensionFilePattern" →
  map_load this dirs o = map_load this dirs o'.
Proof.
  intros H1 H2. revert this. induction dirs as [|dir dirs IH]; intros this; simpl;
    [reflexivity|].
  unfold load. simpl. rewrite H1, H2.
  destruct (loadPluginFromDirectory _ _); [|reflexivity]. rewrite IH. reflexivity.
Qed.

(** [loadAll] reads three keys of its options, [matching],
    [commandFilePattern] and [extensionFilePattern]: options that agree on
    them give the same loads and the same Runtime. *)
Theorem loadAll_reads_three_options (this : Runtime) (directory : string)
    (options options' : Obj) :
  options !! "matching" = options' !! "matching" →
  options !! "commandFilePattern" = options' !! "commandFilePattern" →
  options !! "extensionFilePattern" = options' !! "extensionFilePattern" →
  loadAll this directory (Some options) = loadAll this directory (Some options').
Proof.
  intros Hm Hc He. unfold loadAll. simpl. rewrite Hm.
  destruct (isBlank directory || negb (isDirectory directory)); [reflexivity|].
  apply map_load_options; rewrite !lookup_delete_ne by discriminate; assumption.
Qed.

End RuntimeClassFacts.

(** ** printBanner *)

(** The banner printed is the first eight lines of banner.txt: lines after
    the eighth are never printed, and two banners with the same first eight
    lines give the same calls. *)
Theorem printBanner_first_eight_lines (BANNER BANNER' : list string) (version : string) :
  take 8 BANNER = take 8 BANNER' →
  printBanner BANNER version = printBanner BANNER' version.
Proof.
  intros H.
  assert (Hl : ∀ i, (i < 8)%nat → BANNER !! i = BANNER' !! i).
  { intros i Hi. rewrite <- (lookup_take_lt BANNER 8 i Hi), H. apply lookup_take_lt, Hi. }
  unfold printBanner. rewrite !Hl by lia. reflexivity.
Qed.

(** ** Loading and dispatching together *)

Lemma run_without_plugins (argv : list string)
    (normalizeParams : string → string → list string → Parameters)
    (call_setup : Handle → RunContext → Completion RunContext)
    (call_run : Handle → RunContext → Completion (RunContext * Value))
    (plugin_binding : option Plugin) (this : Runtime)
    (rawCommand : RawCommand) (options_arg : option Obj) (log : list Event) :
  plugins this = [] → defaultPlugin this = None →
  run argv normalizeParams call_setup call_run plugin_binding this rawCommand options_arg log
  = (Throw (TypeError "Cannot read property 'commands' of undefined"), log).
Proof.
  intros Hp Hd. unfold run, bind, lift, resolve.
  pose proof (select_no_plugins this (commandArray_of argv rawCommand) Hp Hd) as H.
  destruct (select _ _) as [selected commandArray]. simpl in H. rewrite H. reflexivity.
Qed.

(** The loaders of the class never register a plugin, so a Runtime made by
    the constructor and filled with [loadAll] still has none: every run on it
    throws the TypeError of the missing plugin, whatever was loaded. *)
Theorem loaded_runtime_cannot_dispatch
    (core : CoreExtensions)
    (loadPluginFromDirectory : string → LoaderOptions → Completion LoadedPlugin)
    (isBlank isDirectory : string → bool)
    (subdirectories : string → bool → option Value → bool → list string)
    (argv : list string)
    (normalizeParams : string → string → list string → Parameters)
    (call_setup : Handle → RunContext → Completion RunContext)
    (call_run : Handle → RunContext → Completion (RunContext * Value))
    (brand directory : string) (load_options : option Obj)
    (outcome : Completion (list unit)) (this : Runtime)
    (plugin_binding : option Plugin) (rawCommand : RawCommand)
    (options_arg : option Obj) (log : list Event) :
  loadAll loadPluginFromDirectory isBlank isDirectory subdirectories
          (constructor core brand) directory load_options = (outcome, this) →
  run argv normalizeParams call_setup call_run plugin_binding this rawCommand options_arg log
  = (Throw (TypeError "Cannot read property 'commands' of undefined"), log).
Proof.
  intros H.
  destruct (map_load_extended loadPluginFromDirectory
              (subdirectories directory false (default ∅ load_options !! "matching") true)
              (constructor core brand) (delete "matching" (default ∅ load_options)))
    as (added & _ & Hp & _ & _ & Hd & _).
  unfold loadAll in H.
  destruct (isBlank directory || negb (isDirectory directory)).
  - injection H as _ <-. apply run_without_plugins; reflexivity.
  - rewrite H in Hp, Hd. simpl in Hp, Hd. apply run_without_plugins; assumption.
Qed.

(** ** The further properties at the fixtures *)

Lemma command_string_tokens_witness :
  commandArray_of Fixture.argv (RawString "config  sub") ≠ []
  ∧ Forall (λ w, has_char COMMAND_DELIMITER w = false)
           (commandArray_of Fixture.argv (RawString "config  sub"))
  ∧ join COMMAND_DELIMITER (commandArray_of Fixture.argv (RawString "config  sub"))
    = "config  sub".
Proof.
  apply (command_string_tokens Fixture.argv "config  sub").
  - discriminate.
  - vm_compute. discriminate.
Defined.

Lemma brand_token_is_optional_witness :
  run_args None (RawArray ["args"; "config"; "sub"]) None
  = run_args None (RawArray ["config"; "sub"]) None.
Proof.
  refine (proj2 (brand_token_is_optional Fixture.argv Fixture.normalizeParams
                   Fixture.call_setup Fixture.call_run (Some Fixture.args)
                   (Fixture.runtime_args None) "config" ["sub"] None _ _ _ _ _ _)).
  - discriminate.
  - apply list_elem_of_In. left. reflexivity.
  - discriminate.
  - intros H. apply list_elem_of_In in H. destruct H as [H|[]]. discriminate.
  - discriminate.
  - discriminate.
Defined.

Lemma brand_alone_is_default_witness :
  run_args None (RawArray ["args"]) None = run_args None (RawArray []) None.
Proof.
  refine (brand_alone_is_default Fixture.argv Fixture.normalizeParams
            Fixture.call_setup Fixture.call_run (Some Fixture.args)
            (Fixture.runtime_args None) None _ _ _ _ _).
  - discriminate.
  - apply list_elem_of_In. left. reflexivity.
  - right. vm_compute. reflexivity.
  - discriminate.
  - discriminate.
Defined.

Lemma run_no_match_witness :
  ∃ context,
    run Fixture.argv Fixture.normalizeParams Fixture.call_setup Fixture.call_run
        (Some Fixture.shared) Fixture2.runtime_shared (RawString "zzz") None []
    = (Return context, [])
    ∧ ctx_plugin context = Some Fixture.shared
    ∧ ctx_command context = None
    ∧ ctx_config context = None ∧ parameters context = None ∧ result context = None.
Proof.
  exists (Fixture.resolved Fixture2.runtime_shared "shared" "zzz" Fixture.shared None).
  assert (Hres : resolve Fixture.argv (Some Fixture.shared) Fixture2.runtime_shared
                         (RawString "zzz")
                 = Return (Fixture.resolved Fixture2.runtime_shared "shared" "zzz"
                             Fixture.shared None, ["zzz"])).
  { vm_compute. reflexivity. }
  destruct (run_no_match Fixture.argv Fixture.normalizeParams Fixture.call_setup
              Fixture.call_run (Some Fixture.shared) Fixture2.runtime_shared
              (RawString "zzz") None _ _ Hres (or_intror eq_refl))
    as (Hrun & Hc & Hp & Hr).
  split; [exact Hrun|]. split; [reflexivity|]. split; [reflexivity|]. auto.
Defined.

Lemma resolve_two :
  resolve Fixture.argv (Some Fixture.args) Fixture2.runtime_two (RawString "config")
  = Return (Fixture.resolved Fixture2.runtime_two "args" "config"
              Fixture.args (Some Fixture.args_config), ["config"]).
Proof. vm_compute. reflexivity. Defined.

Lemma run_setup_throws_witness :
  ∃ context,
    run Fixture.argv Fixture.normalizeParams Fixture2.call_setup Fixture2.call_run
        (Some Fixture.args) Fixture2.runtime_two (RawString "config") None []
    = (Throw Fixture2.boom,
       [EvSetup (mkExtension "first" 0%nat) context]
         ++ [EvSetup (mkExtension "second" 1%nat) context]).
Proof.
  eexists.
  refine (proj1 (run_setup_throws Fixture.argv Fixture.normalizeParams
                   Fixture2.call_setup Fixture2.call_run (Some Fixture.args)
                   Fixture2.runtime_two (RawString "config") None _ _
                   Fixture.args Fixture.args_config 1%nat
                   [mkExtension "first" 0%nat] [mkExtension "third" 2%nat]
                   (mkExtension "second" 1%nat) _ _ Fixture2.boom
                   resolve_two eq_refl eq_refl eq_refl eq_refl eq_refl eq_refl)).
Defined.

Lemma run_behaviour_outcome_witness :
  ∃ returned log,
    run Fixture.argv Fixture.normalizeParams Fixture.call_setup Fixture2.call_run
        (Some Fixture.args) (Fixture.runtime_args None) (RawString "config") None []
    = (Return returned, log)
    ∧ result returned = Some (VNum 42).
Proof.
  assert (Hs : ∃ context' log',
             forEach_setup Fixture.call_setup (extensions (Fixture.runtime_args None))
               (prepare Fixture.normalizeParams (Fixture.runtime_args None) None
                  (Fixture.resolved (Fixture.runtime_args None) "args" "config"
                     Fixture.args (Some Fixture.args_config))
                  ["config"] Fixture.args Fixture.args_config) []
             = (Return context', log')
             ∧ ctx_command context' = Some Fixture.args_config).
  { eexists _, _. split; [vm_compute; reflexivity|reflexivity]. }
  destruct Hs as (context' & log' & Hs & Hc').
  pose proof (run_behaviour_outcome Fixture.argv Fixture.normalizeParams
                Fixture.call_setup Fixture2.call_run (Some Fixture.args)
                (Fixture.runtime_args None) (RawString "config") None _ _
                Fixture.args Fixture.args_config Fixture.args_config 1%nat 1%nat
                context' log' (resolve_config None) eq_refl eq_refl eq_refl
                Hs Hc' eq_refl) as H.
  eexists _, _. split; [exact H|reflexivity].
Defined.

Lemma parameters_without_options_witness :
  mergedParameters Fixture.normalizeParams Fixture.args Fixture.args_config ["config"] None
  = Fixture.normalizeParams "args" "config" ["config"].
Proof.
  apply (proj1 (parameters_without_options Fixture.normalizeParams
                  Fixture.args Fixture.args_config ["config"] None)).
  left. reflexivity.
Defined.

Lemma base_entry_replaced_witness :
  effectiveConfig (with_config (Fixture.runtime_args None) {[ "other" := VNum 1 ]})
                  Fixture.args !! "other"
  = Some (VNum 1).
Proof.
  rewrite (proj2 (base_entry_replaced
                    (with_config (Fixture.runtime_args None) {[ "other" := VNum 1 ]})
                    Fixture.args VNull "other")).
  - vm_compute. reflexivity.
  - discriminate.
Defined.

Lemma loadAll_keeps_runtime_witness :
  loadAll Fixture2.loadPluginFromDirectory Fixture2.isBlank Fixture2.isDirectory
          Fixture2.subdirectories (constructor Fixture2.core "cli") "" None
  = (Return [], constructor Fixture2.core "cli").
Proof.
  apply (proj2 (proj2 (loadAll_keeps_runtime Fixture2.loadPluginFromDirectory
                         Fixture2.isBlank Fixture2.isDirectory Fixture2.subdirectories
                         (constructor Fixture2.core "cli") "" None))).
  left. reflexivity.
Defined.

Lemma loadAll_loads_every_subdirectory_witness :
  fst (loadAll Fixture2.loadPluginFromDirectory Fixture2.isBlank Fixture2.isDirectory
               Fixture2.subdirectories (constructor Fixture2.core "cli") "plugins" None)
  = Return [tt; tt]
  ∧ extended (constructor Fixture2.core "cli")
      (snd (loadAll Fixture2.loadPluginFromDirectory Fixture2.isBlank Fixture2.isDirectory
                    Fixture2.subdirectories (constructor Fixture2.core "cli") "plugins" None))
      [mkExtension "one" 9%nat; mkExtension "two" 9%nat].
Proof.
  refine (loadAll_loads_every_subdirectory Fixture2.loadPluginFromDirectory
            Fixture2.isBlank Fixture2.isDirectory Fixture2.subdirectories
            (constructor Fixture2.core "cli") "plugins" None
            [mkLoadedPlugin (mkPlugin "one" [] ∅) [mkExtension "one" 9%nat];
             mkLoadedPlugin (mkPlugin "two" [] ∅) [mkExtension "two" 9%nat]]
            eq_refl eq_refl _).
  repeat constructor.
Defined.

Lemma loadAll_reads_three_options_witness :
  loadAll Fixture2.loadPluginFromDirectory Fixture2.isBlank Fixture2.isDirectory
          Fixture2.subdirectories (constructor Fixture2.core "cli") "plugins"
          (Some {[ "hidden" := VBool true ]})
  = loadAll Fixture2.loadPluginFromDirectory Fixture2.isBlank Fixture2.isDirectory
            Fixture2.subdirectories (constructor Fixture2.core "cli") "plugins" (Some ∅).
Proof.
  apply loadAll_reads_three_options; vm_compute; reflexivity.
Defined.

Lemma loaded_runtime_cannot_dispatch_witness :
  run Fixture.argv Fixture.normalizeParams Fixture.call_setup Fixture.call_run
      (Some Fixture.args)
      (snd (loadAll Fixture2.loadPluginFromDirectory Fixture2.isBlank Fixture2.isDirectory
                    Fixture2.subdirectories (constructor Fixture2.core "cli") "plugins" None))
      (RawString "one") None []
  = (Throw (TypeError "Cannot read property 'commands' of undefined"), []).
Proof.
  apply (loaded_runtime_cannot_dispatch Fixture2.core Fixture2.loadPluginFromDirectory
           Fixture2.isBlank Fixture2.isDirectory Fixture2.subdirectories
           Fixture.argv Fixture.normalizeParams Fixture.call_setup Fixture.call_run
           "cli" "plugins" None _ _ (Some Fixture.args) (RawString "one") None []
           (surjective_pairing _)).
Defined.

Lemma printBanner_first_eight_lines_witness :
  printBanner ["1"; "2"; "3"; "4"; "5"; "6"; "7"; "8"; "9"; "10"] "1.0.0"
  = printBanner ["1"; "2"; "3"; "4"; "5"; "6"; "7"; "8"] "1.0.0".
Proof. apply printBanner_first_eight_lines. reflexivity. Defined.

(** * The file as it stands: [plugin] is not declared *)

(** runtime.js declares no [plugin] where findCommand reads it (its parameter
    is [context]; the only [const plugin] is local to [load]), so the binding
    the code has is [None]. *)

Lemma findCommand_as_declared (context : option Plugin) (path : option (list string)) :
  findCommand None context path
  = match context with
    | None => Throw (TypeError "Cannot read property 'commands' of undefined")
    | Some context =>
      if bool_decide (commands context = []) then Return None
      else Throw (ReferenceError "plugin is not defined")
    end.
Proof.
  destruct context as [context|]; [|reflexivity].
  unfold findCommand. case_bool_decide; reflexivity.
Qed.

Lemma run_unbound_throws (argv : list string)
    (normalizeParams : string → string → list string → Parameters)
    (call_setup : Handle → RunContext → Completion RunContext)
    (call_run : Handle → RunContext → Completion (RunContext * Value))
    (this : Runtime) (rawCommand : RawCommand) (options_arg : option Obj)
    (log : list Event) (plugin : Plugin) :
  ctx_plugin (fst (select this (commandArray_of argv rawCommand))) = Some plugin →
  commands plugin ≠ [] →
  run argv normalizeParams call_setup call_run None this rawCommand options_arg log
  = (Throw (ReferenceError "plugin is not defined"), log).
Proof.
  intros Hp Hc. unfold run, bind, lift, resolve.
  destruct (select this (commandArray_of argv rawCommand)) as [selected commandArray].
  simpl in Hp. rewrite Hp, findCommand_as_declared.
  rewrite bool_decide_eq_false_2 by exact Hc. reflexivity.
Qed.

Lemma select_runtime_args (overrides : option (gmap string Obj)) (tokens : list string) :
  ctx_plugin (fst (select (Fixture.runtime_args overrides) tokens)) = Some Fixture.args.
Proof.
  unfold select, truthy, includes. destruct tokens as [|first rest]; simpl; [reflexivity|].
  case_bool_decide as He; simpl; [reflexivity|].
  case_bool_decide as Hin; simpl; [|reflexivity].
  apply list_elem_of_In in Hin. simpl in Hin. destruct Hin as [<-|[]]. reflexivity.
Qed.

Lemma run_args_throws (argv : list string)
    (normalizeParams : string → string → list string → Parameters)
    (call_setup : Handle → RunContext → Completion RunContext)
    (call_run : Handle → RunContext → Completion (RunContext * Value))
    (overrides : option (gmap string Obj)) (rawCommand : RawCommand)
    (options_arg : option Obj) (log : list Event) :
  run argv normalizeParams call_setup call_run None (Fixture.runtime_args overrides)
      rawCommand options_arg log
  = (Throw (ReferenceError "plugin is not defined"), log).
Proof.
  apply (run_unbound_throws _ _ _ _ _ _ _ _ Fixture.args).
  - apply select_runtime_args.
  - discriminate.
Qed.

(** C2, what the code does instead. On the Runtime of the tests, the plugin
    [args] with defaults {color: 'blue'} and a [config] command, with or without
    Runtime defaults for [args], every run throws the ReferenceError of
    findCommand before lines 92-97: no configuration is built and nothing is
    returned. Lines 93-97 taken by themselves give the values of the claim,
    {color: 'blue'} and, with the Runtime defaults {color: 'red'},
    {color: 'red'}. *)
Theorem config_never_built (argv : list string)
    (normalizeParams : string → string → list string → Parameters)
    (call_setup : Handle → RunContext → Completion RunContext)
    (call_run : Handle → RunContext → Completion (RunContext * Value))
    (overrides : option (gmap string Obj)) (options_arg : option Obj) (log : list Event) :
  run argv normalizeParams call_setup call_run None (Fixture.runtime_args overrides)
      (RawString "config") options_arg log
  = (Throw (ReferenceError "plugin is not defined"), log)
  ∧ effectiveConfig (Fixture.runtime_args None) Fixture.args
    = {[ "args" := VObj {[ "color" := VStr "blue" ]} ]}
  ∧ effectiveConfig (Fixture.runtime_args (Some {[ "args" := {[ "color" := VStr "red" ]} ]}))
                    Fixture.args
    = {[ "args" := VObj {[ "color" := VStr "red" ]} ]}.
Proof.
  split; [apply run_args_throws|]. split; vm_compute; reflexivity.
Qed.

(** C3, what the code does instead. [config] is a command of the plugin
    [args] with the alias [c]; resolving the token [c] and resolving the token
    [config] both throw the ReferenceError, so neither yields the command. *)
Theorem alias_and_name_both_throw :
  Fixture.args_config ∈ commands Fixture.args
  ∧ "c" ∈ alias Fixture.args_config
  ∧ findCommand None (Some Fixture.args) (Some ["c"])
    = Throw (ReferenceError "plugin is not defined")
  ∧ findCommand None (Some Fixture.args) (Some [name Fixture.args_config])
    = Throw (ReferenceError "plugin is not defined").
Proof.
  split; [apply list_elem_of_In; simpl; auto|].
  split; [apply list_elem_of_In; simpl; auto|].
  split; reflexivity.
Qed.

(** C4, what the code does instead. With two commands that answer to the
    token [a], one with a shorter commandPath, and more generally with any
    context that has a command and any token path that has a token, the first
    step of the walk throws the ReferenceError when it reads [plugin.commands]
    for the sort: no candidate is chosen. *)
Theorem walk_never_chooses (pluginName : string) (command : Command)
    (others : list Command) (pluginDefaults : Obj) (tok : string) (rest : list string) :
  findCommand None
    (Some {| plugin_name := pluginName; commands := [Fixture.long_a; Fixture.short_a];
             plugin_defaults := pluginDefaults |})
    (Some ["a"])
  = Throw (ReferenceError "plugin is not defined")
  ∧ findCommand None
      (Some {| plugin_name := pluginName; commands := command :: others;
               plugin_defaults := pluginDefaults |})
      (Some (tok :: rest))
    = Throw (ReferenceError "plugin is not defined").
Proof. split; reflexivity. Qed.

(** C5, what the code does instead. The plugin [args] has a default command,
    one whose commandPath is the plugin's name alone; for every token path, the
    empty one and those whose tokens match nothing included, findCommand ends,
    but by throwing the ReferenceError: the default command is not returned. *)
Theorem default_command_not_returned (path : option (list string)) :
  Fixture.args_default ∈ commands Fixture.args
  ∧ commandPath Fixture.args_default = [plugin_name Fixture.args]
  ∧ findCommand None (Some Fixture.args) path
    = Throw (ReferenceError "plugin is not defined")
  ∧ findCommand None (Some Fixture.args) (Some [])
    = Throw (ReferenceError "plugin is not defined").
Proof.
  split; [apply list_elem_of_In; simpl; auto|]. split; [reflexivity|].
  split; [|reflexivity]. rewrite findCommand_as_declared. reflexivity.
Qed.




(** ** The plugin named by the first token *)

(** C6 as the code has it. When the first token is a known plugin name and
    not the empty string, run takes the plugin of that name, sets commandName
    to the second token when there is one and it is not the empty string, to
    the plugin name otherwise (so to the plugin name when nothing follows),
    and hands findCommand the tokens without the first. Whatever [plugin]
    stands for in findCommand, a resolution that returns carries these names,
    this plugin and these tokens; and as the file stands, for a plugin without
    commands run returns that context, with no command. *)
Theorem resolve_known_plugin (argv : list string)
    (normalizeParams : string → string → list string → Parameters)
    (call_setup : Handle → RunContext → Completion RunContext)
    (call_run : Handle → RunContext → Completion (RunContext * Value))
    (this : Runtime) (rawCommand : RawCommand) (first : string) (rest : list string) :
  commandArray_of argv rawCommand = first :: rest →
  first ≠ "" →
  first ∈ pluginNames this →
  ∃ plugin selected,
    findPlugin this first = Some plugin
    ∧ plugin_name plugin = first
    ∧ select this (first :: rest) = (selected, rest)
    ∧ pluginName selected = Some first
    ∧ ctx_plugin selected = Some plugin
    ∧ commandName selected
      = Some (match rest with
              | second :: _ => if bool_decide (second = "") then first else second
              | [] => first
              end)
    ∧ (rest = [] → commandName selected = Some first)
    ∧ (∀ plugin_binding,
         resolve argv plugin_binding this rawCommand
         = match findCommand plugin_binding (Some plugin) (Some rest) with
           | Return command => Return (set_command selected command, rest)
           | Throw e => Throw e
           end)
    ∧ (∀ plugin_binding context remaining,
         resolve argv plugin_binding this rawCommand = Return (context, remaining) →
         remaining = rest
         ∧ pluginName context = Some first
         ∧ ctx_plugin context = Some plugin
         ∧ commandName context = commandName selected)
    ∧ (commands plugin = [] →
       ∀ options_arg log,
         run argv normalizeParams call_setup call_run None this rawCommand options_arg log
         = (Return (set_command selected None), log)).
Proof.
  intros Harr Hne Hknown.
  destruct (findPlugin_known this first Hknown) as (plugin & Hfind & Hname & _).
  pose (selected :=
          set_plugin
            (set_commandName
               (set_pluginName (set_runtime new_RunContext this) first)
               (match rest with
                | second :: _ => if bool_decide (second = "") then first else second
                | [] => first
                end))
            (Some plugin)).
  assert (Hsel : select this (first :: rest) = (selected, rest)).
  { unfold select, truthy, includes. simpl.
    rewrite (bool_decide_eq_false_2 (first = "")) by exact Hne.
    rewrite (bool_decide_eq_true_2 (first ∈ pluginNames this)) by exact Hknown.
    simpl. rewrite Hfind. unfold drop, selected. f_equal. f_equal.
    destruct rest as [|second rest']; simpl; [reflexivity|].
    destruct (bool_decide (second = "")); reflexivity. }
  assert (Hres : ∀ plugin_binding,
             resolve argv plugin_binding this rawCommand
             = match findCommand plugin_binding (Some plugin) (Some rest) with
               | Return command => Return (set_command selected command, rest)
               | Throw e => Throw e
               end).
  { intros plugin_binding. unfold resolve. rewrite Harr, Hsel. reflexivity. }
  exists plugin, selected.
  split; [exact Hfind|]. split; [exact Hname|]. split; [exact Hsel|].
  split; [reflexivity|]. split; [reflexivity|]. split; [reflexivity|].
  split; [intros ->; reflexivity|]. split; [exact Hres|]. split.
  - intros plugin_binding context remaining H. rewrite Hres in H.
    destruct (findCommand plugin_binding (Some plugin) (Some rest)); [|discriminate].
    injection H as <- <-. repeat split.
  - intros Hc options_arg log. unfold run, bind, lift. rewrite Hres.
    rewrite findCommand_as_declared, Hc. reflexivity.
Qed.

Lemma resolve_known_plugin_witness :
  ∃ context,
    run Fixture.argv Fixture.normalizeParams Fixture.call_setup Fixture.call_run
        None Fixture3.runtime_bare (RawString "bare") None []
    = (Return context, [])
    ∧ pluginName context = Some "bare"
    ∧ commandName context = Some "bare"
    ∧ ctx_plugin context = Some Fixture3.bare.
Proof.
  assert (Harr : commandArray_of Fixture.argv (RawString "bare") = ["bare"]).
  { vm_compute. reflexivity. }
  destruct (resolve_known_plugin Fixture.argv Fixture.normalizeParams
              Fixture.call_setup Fixture.call_run Fixture3.runtime_bare
              (RawString "bare") "bare" [] Harr)
    as (plugin & selected & Hfind & _ & _ & Hpn & Hp & _ & Hcn & _ & _ & Hrun).
  - discriminate.
  - apply list_elem_of_In. left. reflexivity.
  - assert (Hf : findPlugin Fixture3.runtime_bare "bare" = Some Fixture3.bare)
      by (vm_compute; reflexivity).
    rewrite Hf in Hfind. injection Hfind as <-.
    exists (set_command selected None). split; [apply Hrun; reflexivity|].
    simpl. split; [exact Hpn|]. split; [apply Hcn; reflexivity|exact Hp].
Defined.

(** C6 as stated fails: the tokens of 'bare ' are the plugin name and the
    empty string, so a second token is there, and run returns a context whose
    commandName is the plugin name, not that second token. *)
Lemma second_token_counterexample :
  commandArray_of Fixture.argv (RawString "bare ") = ["bare"; ""]
  ∧ "bare" ∈ pluginNames Fixture3.runtime_bare
  ∧ ∃ returned,
      run Fixture.argv Fixture.normalizeParams Fixture.call_setup Fixture.call_run
          None Fixture3.runtime_bare (RawString "bare ") None []
      = (Return returned, [])
      ∧ pluginName returned = Some "bare"
      ∧ commandName returned = Some "bare"
      ∧ commandName returned ≠ ["bare"; ""] !! 1%nat.
Proof.
  split; [vm_compute; reflexivity|].
  split; [apply list_elem_of_In; left; reflexivity|].
  eexists. split; [vm_compute; reflexivity|]. split; [reflexivity|].
  split; [reflexivity|discriminate].
Qed.

(** ** What run comes to as the file stands *)

(** As the file stands run never dispatches: whatever the Runtime and the
    input, it calls no extension and no command, and it either throws (the
    TypeError of a missing plugin, or the ReferenceError of [plugin]) or
    returns a context without command, config, parameters and result. *)
Theorem run_never_dispatches (argv : list string)
    (normalizeParams : string → string → list string → Parameters)
    (call_setup : Handle → RunContext → Completion RunContext)
    (call_run : Handle → RunContext → Completion (RunContext * Value))
    (this : Runtime) (rawCommand : RawCommand) (options_arg : option Obj) :
  snd (run argv normalizeParams call_setup call_run None this rawCommand options_arg []) = []
  ∧ match fst (run argv normalizeParams call_setup call_run None this rawCommand
                   options_arg []) with
    | Return context =>
      ctx_command context = None ∧ ctx_config context = None
      ∧ parameters context = None ∧ result context = None
    | Throw e =>
      e = TypeError "Cannot read property 'commands' of undefined"
      ∨ e = ReferenceError "plugin is not defined"
    end.
Proof.
  unfold run, bind, lift, resolve.
  pose proof (select_fresh this (commandArray_of argv rawCommand)) as Hf.
  destruct (select this (commandArray_of argv rawCommand)) as [selected commandArray].
  simpl in Hf. destruct Hf as (_ & _ & Hc & Hp & Hr & _).
  rewrite findCommand_as_declared.
  destruct (ctx_plugin selected) as [plugin|] eqn:Hplugin; [|simpl; auto].
  case_bool_decide; simpl; [|auto]. rewrite Hplugin. simpl. auto.
Qed.

(** ** The kick-off step by itself *)

Section KickOff.
Variable call_setup : Handle → RunContext → Completion RunContext.
Variable call_run : Handle → RunContext → Completion (RunContext * Value).

Local Abbreviation forEach_setup := (forEach_setup call_setup).
Local Abbreviation kickOff := (kickOff call_setup call_run).
Local Abbreviation threaded := (threaded call_setup).

Lemma forEach_setup_threaded (exts : list Extension) (context : RunContext)
    (log : list Event) :
  match forEach_setup exts context log with
  | (Return final, log') =>
    ∃ contexts, length contexts = length exts
                ∧ log' = log ++ zip_with EvSetup exts contexts
                ∧ threaded exts contexts context final
  | (Throw e, log') => ∃ contexts, log' = log ++ zip_with EvSetup exts contexts
  end.
Proof.
  revert context log. induction exts as [|extension rest IH]; intros context log.
  - simpl. exists []. rewrite app_nil_r. repeat split.
  - rewrite forEach_setup_cons.
    destruct (call_setup (setup extension) context) as [next|e] eqn:Hnext.
    + specialize (IH next (log ++ [EvSetup extension context])).
      destruct (forEach_setup rest next (log ++ [EvSetup extension context]))
        as [[final|e] log'].
      * destruct IH as (contexts & Hlen & Hlog & Hth).
        exists (context :: contexts). simpl. rewrite Hlog, <- List.app_assoc.
        split; [congruence|]. split; [reflexivity|]. split; [reflexivity|eauto].
      * destruct IH as (contexts & Hlog).
        exists (context :: contexts). simpl. rewrite Hlog, <- List.app_assoc. reflexivity.
    + exists [context]. simpl. destruct rest; reflexivity.
Qed.

(** Lines 107-116 on a context that holds a command. Whenever the behaviour
    of a command is called, the calls made are the setups of all registered
    extensions, once each in registration order, and then the behaviour; the
    first setup is handed the context itself, each next one the context as the
    one before left it, and the behaviour the context the last one left, whose
    command it is. *)
Theorem kickOff_pipeline (this : Runtime) (context : RunContext)
    (outcome : Completion RunContext) (log : list Event)
    (command : Command) (final : RunContext) :
  kickOff this context [] = (outcome, log) →
  EvRun command final ∈ log →
  ∃ contexts,
    length contexts = length (extensions this)
    ∧ log = zip_with EvSetup (extensions this) contexts ++ [EvRun command final]
    ∧ threaded (extensions this) contexts context final
    ∧ ctx_command final = Some command.
Proof.
  intros Hk Hin.
  destruct (ctx_command context) as [command0|] eqn:Hc0;
    [|unfold kickOff in Hk; rewrite Hc0 in Hk; injection Hk as _ <-; inversion Hin].
  destruct (run_of command0) as [behaviour0|] eqn:Hr0;
    [|unfold kickOff in Hk; rewrite Hc0, Hr0 in Hk; injection Hk as _ <-; inversion Hin].
  rewrite (kickOff_runnable call_setup call_run this context command0 behaviour0 []
             Hc0 Hr0) in Hk.
  pose proof (forEach_setup_threaded (extensions this) context []) as Hs.
  destruct (forEach_setup (extensions this) context []) as [[final'|e] log'].
  - destruct Hs as (contexts & Hlen & Hlog & Hth). simpl in Hlog. subst log'.
    destruct (ctx_command final') as [command'|] eqn:Hc';
      [|injection Hk as _ <-; exfalso; exact (setups_no_run _ _ _ _ Hin)].
    destruct (run_of command') as [behaviour'|];
      [|injection Hk as _ <-; exfalso; exact (setups_no_run _ _ _ _ Hin)].
    assert (Hl : log = zip_with EvSetup (extensions this) contexts
                       ++ [EvRun command' final']).
    { destruct (call_run behaviour' final'); injection Hk as _ <-; reflexivity. }
    rewrite Hl in Hin. apply elem_of_app in Hin as [Hin|Hin];
      [exfalso; exact (setups_no_run _ _ _ _ Hin)|].
    apply list_elem_of_singleton in Hin. injection Hin as -> ->.
    exists contexts. auto.
  - destruct Hs as (contexts & Hlog). simpl in Hlog. subst log'.
    injection Hk as _ <-. exfalso. exact (setups_no_run _ _ _ _ Hin).
Qed.

(** Lines 107-116: when the setup of an extension throws, the step throws
    that exception; the extensions registered before it have been set up, once
    each and in order, the ones after it are not, and the behaviour is not
    called. *)
Theorem kickOff_setup_throws (this : Runtime) (context : RunContext)
    (command : Command) (behaviour : Handle)
    (before after : list Extension) (extension : Extension)
    (context' : RunContext) (log' : list Event) (e : Exn) :
  ctx_command context = Some command →
  run_of command = Some behaviour →
  extensions this = before ++ extension :: after →
  forEach_setup before context [] = (Return context', log') →
  call_setup (setup extension) context' = Throw e →
  kickOff this context [] = (Throw e, log' ++ [EvSetup extension context'])
  ∧ ∃ contexts, length contexts = length before
                ∧ log' = zip_with EvSetup before contexts
                ∧ threaded before contexts context context'.
Proof.
  intros Hc Hr Hexts Hbefore Hthrow. split.
  - rewrite (kickOff_runnable call_setup call_run this context command behaviour []
               Hc Hr).
    rewrite Hexts, (forEach_setup_app call_setup), Hbefore, forEach_setup_cons, Hthrow.
    reflexivity.
  - pose proof (forEach_setup_threaded before context []) as Hs.
    rewrite Hbefore in Hs. exact Hs.
Qed.

(** Lines 107-116: once every setup has returned, the behaviour of the
    command the context then holds is called with that context, as the last
    call. What it throws is thrown on; what it returns is stored as the result
    on the context it leaves, and that context is returned. *)
Theorem kickOff_behaviour_outcome (this : Runtime) (context : RunContext)
    (command command' : Command) (behaviour behaviour' : Handle)
    (context' : RunContext) (log' : list Event) :
  ctx_command context = Some command →
  run_of command = Some behaviour →
  forEach_setup (extensions this) context [] = (Return context', log') →
  ctx_command context' = Some command' →
  run_of command' = Some behaviour' →
  kickOff this context []
  = (match call_run behaviour' context' with
     | Return r => Return (set_result (fst r) (snd r))
     | Throw e => Throw e
     end,
     log' ++ [EvRun command' context']).
Proof.
  intros Hc Hr Hsetups Hc' Hr'.
  rewrite (kickOff_runnable call_setup call_run this context command behaviour []
             Hc Hr).
  rewrite Hsetups, Hc', Hr'. destruct (call_run behaviour' context'); reflexivity.
Qed.

End KickOff.

Lemma kickOff_pipeline_witness :
  ∃ contexts command final,
    length contexts = 2%nat
    ∧ snd (kickOff Fixture.call_setup Fixture.call_run (Fixture.runtime_args None)
             (Fixture.resolved (Fixture.runtime_args None) "args" "config"
                Fixture.args (Some Fixture.args_config)) [])
      = zip_with EvSetup [Fixture.strings_ext; Fixture.print_ext] contexts
        ++ [EvRun command final]
    ∧ threaded Fixture.call_setup [Fixture.strings_ext; Fixture.print_ext] contexts
        (Fixture.resolved (Fixture.runtime_args None) "args" "config"
           Fixture.args (Some Fixture.args_config))
        final
    ∧ ctx_command final = Some command.
Proof.
  assert (Hlog : ∃ e1 e2 command final,
             snd (kickOff Fixture.call_setup Fixture.call_run (Fixture.runtime_args None)
                    (Fixture.resolved (Fixture.runtime_args None) "args" "config"
                       Fixture.args (Some Fixture.args_config)) [])
             = [e1; e2; EvRun command final]).
  { eexists _, _, _, _. vm_compute. reflexivity. }
  destruct Hlog as (e1 & e2 & command & final & Hlog).
  destruct (kickOff_pipeline Fixture.call_setup Fixture.call_run (Fixture.runtime_args None)
              (Fixture.resolved (Fixture.runtime_args None) "args" "config"
                 Fixture.args (Some Fixture.args_config))
              _ _ command final (surjective_pairing _))
    as (contexts & Hlen & Hl & Hth & Hc).
  - rewrite Hlog. apply list_elem_of_In. right. right. left. reflexivity.
  - exists contexts, command, final. auto.
Defined.

Lemma kickOff_setup_throws_witness :
  kickOff Fixture2.call_setup Fixture2.call_run Fixture2.runtime_two
          (Fixture.resolved Fixture2.runtime_two "args" "config"
             Fixture.args (Some Fixture.args_config)) []
  = (Throw Fixture2.boom,
     [EvSetup (mkExtension "first" 0%nat)
              (Fixture.resolved Fixture2.runtime_two "args" "config"
                 Fixture.args (Some Fixture.args_config))]
       ++ [EvSetup (mkExtension "second" 1%nat)
                   (Fixture.resolved Fixture2.runtime_two "args" "config"
                      Fixture.args (Some Fixture.args_config))]).
Proof.
  refine (proj1 (kickOff_setup_throws Fixture2.call_setup Fixture2.call_run
                   Fixture2.runtime_two
                   (Fixture.resolved Fixture2.runtime_two "args" "config"
                      Fixture.args (Some Fixture.args_config))
                   Fixture.args_config 1%nat
                   [mkExtension "first" 0%nat] [mkExtension "third" 2%nat]
                   (mkExtension "second" 1%nat) _ _ Fixture2.boom
                   eq_refl eq_refl eq_refl eq_refl eq_refl)).
Defined.

Lemma kickOff_behaviour_outcome_witness :
  ∃ returned log,
    kickOff Fixture.call_setup Fixture2.call_run (Fixture.runtime_args None)
            (Fixture.resolved (Fixture.runtime_args None) "args" "config"
               Fixture.args (Some Fixture.args_config)) []
    = (Return returned, log)
    ∧ result returned = Some (VNum 42).
Proof.
  assert (Hs : ∃ context' log',
             forEach_setup Fixture.call_setup (extensions (Fixture.runtime_args None))
               (Fixture.resolved (Fixture.runtime_args None) "args" "config"
                  Fixture.args (Some Fixture.args_config)) []
             = (Return context', log')
             ∧ ctx_command context' = Some Fixture.args_config).
  { eexists _, _. split; [vm_compute; reflexivity|reflexivity]. }
  destruct Hs as (context' & log' & Hs & Hc').
  pose proof (kickOff_behaviour_outcome Fixture.call_setup Fixture2.call_run
                (Fixture.runtime_args None)
                (Fixture.resolved (Fixture.runtime_args None) "args" "config"
                   Fixture.args (Some Fixture.args_config))
                Fixture.args_config Fixture.args_config
                1%nat 1%nat context' log' eq_refl eq_refl Hs Hc' eq_refl) as H.
  eexists _, _. split; [exact H|reflexivity].
Defined.
